(** * pistachio-action: the advisory fetcher, [fetchAdvisories]

    A shallow embedding of [src/fetch_advisories.js] and statements about its
    three stages: the fetch / paginate / rate-limit loop, the transformer,
    and the load / merge / commit step on the snapshot file. The file holds
    two revisions of the script; the line numbers below are those of the
    paginated one (lines 82-249). The first revision (lines 9-71) is module
    [First]. [src/unnamed/part_000] is an earlier revision of the paginated
    script; where it differs (loop and commit) it is module [Earlier].

    Conventions.
    - JavaScript data (parsed JSON, the in-memory snapshot) is a [jsval];
      a computation that can throw returns an [outcome].
    - The records of the remote API are typed ([RawRecord]) after the schema
      of the advisory endpoint: the fields the code reads have their type,
      the fields it only copies are [jsval], and a timestamp comes with the
      instant [new Date] reads from it.
    - The remote endpoint and the clock are an oracle ([Remote], [Clock]);
      [JSON.parse] and [JSON.stringify] are two section variables; the calls
      of [fs] succeed.
    - Effects are the events of a run, in order, and the state of the data
      directory ([Files]).
    - The [while] loop has no bound of its own: [fetch_loop] takes the number
      of passes it may make and returns [None] when that is not enough. *)

From Stdlib Require Import ZArith QArith Ascii String.
From stdpp Require Import base list strings gmap.

Local Open Scope string_scope.
Local Open Scope list_scope.
Local Open Scope Z_scope.

(** ** JavaScript values *)

#[local] Set Warnings "-register-all".

Inductive jsval : Type :=
| VUndef
| VNull
| VBool (b : bool)
| VNum (q : Q)
| VStr (s : string)
| VArr (items : list jsval)
| VObj (fields : list (string * jsval)).

(** A JavaScript number that the rate-limit arithmetic can produce:
    an integer or [NaN]. *)
Inductive jsnum : Type :=
| NaN
| Num (z : Z).

(** [a - b] on numbers. *)
Definition num_sub (a b : jsnum) : jsnum :=
  match a, b with
  | Num x, Num y => Num (x - y)
  | _, _ => NaN
  end.

(** [a > b] and [a < b]: false as soon as one side is [NaN]. *)
Definition num_gt (a b : jsnum) : bool :=
  match a, b with
  | Num x, Num y => bool_decide (y < x)
  | _, _ => false
  end.

Definition num_lt (a b : jsnum) : bool :=
  match a, b with
  | Num x, Num y => bool_decide (x < y)
  | _, _ => false
  end.

(** Truthiness of a header value: [undefined] and the empty string are falsy. *)
Definition truthy_header (v : option string) : bool :=
  match v with
  | Some s => negb (bool_decide (s = ""))
  | None => false
  end.

(** ** [parseInt] with no radix argument *)

Module ParseInt.

Definition is_space (c : ascii) : bool :=
  let n := nat_of_ascii c in
  (n =? 32)%nat || ((9 <=? n)%nat && (n <=? 13)%nat).

Fixpoint trim_start (s : string) : string :=
  match s with
  | String c rest => if is_space c then trim_start rest else s
  | EmptyString => s
  end.

(** value of [c] as a digit in [radix], if it is one *)
Definition digit (radix : Z) (c : ascii) : option Z :=
  let n := Z.of_nat (nat_of_ascii c) in
  let v :=
    if (48 <=? n) && (n <=? 57) then Some (n - 48)
    else if (97 <=? n) && (n <=? 122) then Some (n - 87)
    else if (65 <=? n) && (n <=? 90) then Some (n - 55)
    else None in
  match v with
  | Some d => if d <? radix then Some d else None
  | None => None
  end.

(** longest prefix of digits; [acc] is [NaN] until a digit was read *)
Fixpoint digits (radix : Z) (s : string) (acc : jsnum) : jsnum :=
  match s with
  | String c rest =>
      match digit radix c with
      | Some d =>
          digits radix rest
            (match acc with NaN => Num d | Num a => Num (a * radix + d) end)
      | None => acc
      end
  | EmptyString => acc
  end.

Definition negate (n : jsnum) : jsnum :=
  match n with Num z => Num (- z) | NaN => NaN end.

Definition unsigned (s : string) : jsnum :=
  match s with
  | String "0" (String "x" rest) | String "0" (String "X" rest) =>
      digits 16 rest NaN
  | _ => digits 10 s NaN
  end.

Definition of_string (s : string) : jsnum :=
  match trim_start s with
  | String "-" rest => negate (unsigned rest)
  | String "+" rest => unsigned rest
  | t => unsigned t
  end.

End ParseInt.

(** [parseInt(h)] for a header value [h]; [undefined] is first turned into
    the string ["undefined"], which has no digit. *)
Definition parseInt (v : option string) : jsnum :=
  match v with
  | Some s => ParseInt.of_string s
  | None => ParseInt.of_string "undefined"
  end.

(** ** The remote endpoint *)

(** Raw advisory records, after the schema of the endpoint. *)

Record Timestamp := {
  iso : string;      (* the text of the field *)
  instant : Z        (* [new Date(iso)], milliseconds since the epoch *)
}.

Record Package := { name : string; pkg_ecosystem : string }.

Record Vulnerability := {
  package : Package;
  vulnerable_version_range : string;
  first_patched_version : option string
}.

Record Identifier := { id_type : string; value : string }.
Record Cwe := { cwe_id : string; cwe_name : string }.
Record Cvss := { vector_string : jsval; score : jsval }.

Record RawRecord := {
  ghsa_id : string;
  published_at : Timestamp;
  updated_at : jsval;
  withdrawn_at : jsval;
  severity : jsval;
  summary : jsval;
  description : jsval;
  vulnerabilities : option (list Vulnerability);
  identifiers : option (list Identifier);
  cwes : option (list Cwe);
  references : jsval;
  html_url : jsval;
  url : jsval;
  cvss : option Cvss
}.

Record ErrorResponse := {
  status : Z;
  headers : gmap string string
}.

(** What [axios.get] rejects with: [response] is absent on a transport
    failure. *)
Record AxiosError := {
  message : string;
  response : option ErrorResponse
}.

Inductive Reply : Type :=
| Resolved (data : list RawRecord)
| Rejected (error : AxiosError).

(** The endpoint and the clock as seen by one run: the reply to the [n]-th
    request of the run (counted from 0) for a page number, and [Date.now()]
    while that request's failure is handled. *)
Record Remote := {
  reply : nat -> nat -> Reply;
  Date_now : nat -> Z
}.

(** ** Rate-limit wait (lines 146-150) *)

(** [||] binds tighter than [? :], so the condition of the conditional is
    [headers['retry-after'] || headers['x-ratelimit-reset']]. *)
Definition retryAfter (h : gmap string string) (now_ms : Z) : jsnum :=
  if truthy_header (h !! "retry-after") || truthy_header (h !! "x-ratelimit-reset")
  then num_sub (parseInt (h !! "x-ratelimit-reset")) (Num (now_ms / 1000))
  else Num 60.

Definition waitTime (r : jsnum) : jsnum :=
  if num_gt r (Num 0) && num_lt r (Num 3600) then r else Num 60.

(** The test of line 146. *)
Definition is_rate_limit (e : AxiosError) : bool :=
  match response e with
  | Some r => bool_decide (status r = 429) || bool_decide (status r = 403)
  | None => false
  end.

(** ** Errors *)

Inductive TypeErrorKind : Type :=
| ReadOfNullish (prop : string)     (* cannot read properties of undefined / null *)
| NotAFunction (prop : string).     (* [x.prop] is not a function *)

Inductive Thrown : Type :=
| Axios (e : AxiosError)
| TypeError (k : TypeErrorKind).

(** ** Effects *)

(** The lines the program prints, by kind. *)
Inductive LogLine : Type :=
| LFetching
| LSince (cutoff : Z)
| LPage (page : nat)
| LNoMoreData
| LOlderThanCutoff (published : string)
| LMaxPage
| LRateLimited (status : Z) (wait : jsnum)
| LFetched (n : nat)
| LOldFormat
| LParseError
| LAdded (n : nat)
| LSaved
| LNothingNew
| LFailure (e : Thrown).     (* "Error fetching advisories:" and [e.message] *)

Inductive Event : Type :=
| EGet (page : nat)          (* [axios.get] with [params.page = page] *)
| ESleep (ms : jsnum)        (* [await new Promise(r => setTimeout(r, ms))] *)
| ELog (l : LogLine)         (* [console.log] *)
| EError (l : LogLine)       (* [console.error] *)
| EMkdir                     (* [fs.mkdirSync(DATA_DIR)] *)
| EWrite (content : string)  (* [fs.writeFileSync(DATA_FILE, content)] *)
| EExit (code : Z).          (* [process.exit(code)] *)

Definition num_mul (a : jsnum) (k : Z) : jsnum :=
  match a with Num z => Num (z * k) | NaN => NaN end.

(** ** The fetch loop (lines 104-159) *)

Record LoopState := {
  page : nat;
  allNewAdvisories : list RawRecord;
  requests : nat               (* requests sent so far in this run *)
}.

(** The [for ... of data] scan (lines 125-133): the accumulated records, the
    value of [keepFetching] after the scan, and what was logged. *)
Fixpoint scan (oneYearAgo : Z) (data acc : list RawRecord)
  : list RawRecord * bool * list Event :=
  match data with
  | [] => (acc, true, [])
  | advisory :: rest =>
      if bool_decide (instant (published_at advisory) < oneYearAgo)
      then (acc, false, [ELog (LOlderThanCutoff (iso (published_at advisory)))])
      else scan oneYearAgo rest (acc ++ [advisory])
  end.

(** How one pass through the body of the [while] ends. *)
Inductive Step : Type :=
| Again (st : LoopState)       (* back to the test with [keepFetching] true *)
| Leave (st : LoopState)       (* [break], or [keepFetching] became false *)
| Throw (e : AxiosError) (st : LoopState).

Definition MAX_PAGE : nat := 500.

(** The rate-limit branch of the [catch] (lines 146-154). *)
Definition rate_limit_wait (r : ErrorResponse) (now_ms : Z) : list Event :=
  let w := waitTime (retryAfter (headers r) now_ms) in
  [ELog (LRateLimited (status r) w); ESleep (num_mul w 1000)].

(** Lines 105-116: the page is announced and asked for. *)
Definition asked (st : LoopState) : list Event :=
  [ELog (LPage (page st)); EGet (page st)].

(** One pass through the body of the [while], and what it did. *)
Definition iteration (remote : Remote) (oneYearAgo : Z) (st : LoopState)
  : Step * list Event :=
  let asked := asked st in
  let sent := S (requests st) in
  match reply remote (requests st) (page st) with
  | Resolved data =>
      if bool_decide (length data = 0%nat)
      then (Leave {| page := page st; allNewAdvisories := allNewAdvisories st;
                     requests := sent |},
            asked ++ [ELog LNoMoreData])
      else
        let '(acc, keepFetching, logged) :=
          scan oneYearAgo data (allNewAdvisories st) in
        if keepFetching
        then
          let page' := S (page st) in
          if bool_decide (MAX_PAGE < page')%nat
          then (Leave {| page := page'; allNewAdvisories := acc; requests := sent |},
                asked ++ logged ++ [ELog LMaxPage])
          else (Again {| page := page'; allNewAdvisories := acc; requests := sent |},
                asked ++ logged ++ [ESleep (Num 1000)])
        else (Leave {| page := page st; allNewAdvisories := acc; requests := sent |},
              asked ++ logged)
  | Rejected error =>
      match response error with
      | Some r =>
          if bool_decide (status r = 429) || bool_decide (status r = 403)
          then (Again {| page := page st; allNewAdvisories := allNewAdvisories st;
                         requests := sent |},
                asked ++ rate_limit_wait r (Date_now remote (requests st)))
          else (Throw error {| page := page st;
                               allNewAdvisories := allNewAdvisories st;
                               requests := sent |}, asked)
      | None =>
          (Throw error {| page := page st; allNewAdvisories := allNewAdvisories st;
                          requests := sent |}, asked)
      end
  end.

(** How the loop ends. *)
Inductive LoopEnd : Type :=
| Fetched (st : LoopState)
| Failed (e : AxiosError) (st : LoopState).

(** The [while (keepFetching)] loop, at most [fuel] passes, with the events
    in order; [None] when the loop is still running after [fuel] passes. *)
Fixpoint fetch_loop (fuel : nat) (remote : Remote) (oneYearAgo : Z)
    (st : LoopState) : option (LoopEnd * list Event) :=
  match fuel with
  | O => None
  | S fuel' =>
      match iteration remote oneYearAgo st with
      | (Again st', evs) =>
          match fetch_loop fuel' remote oneYearAgo st' with
          | Some (e, evs') => Some (e, evs ++ evs')
          | None => None
          end
      | (Leave st', evs) => Some (Fetched st', evs)
      | (Throw e st', evs) => Some (Failed e st', evs)
      end
  end.

Definition initial_state : LoopState :=
  {| page := 1; allNewAdvisories := []; requests := 0 |}.

(** ** The transformer (lines 163-198) *)

Module Normalized.

Record Metadata := {
  htmlUrl : jsval;
  apiUrl : jsval;
  cvssScore : jsval
}.

Record NormalizedRecord := {
  id : string;
  source : string;
  sourceId : string;
  ecosystem : string;
  packageName : string;
  kind : string;
  severity : jsval;
  summary : jsval;
  description : jsval;
  affectedVersionRanges : list string;
  firstPatchedVersion : option string;     (* [None] is [null] *)
  aliases : list string;
  cwes : list string;
  publishedAt : string;
  updatedAt : jsval;
  withdrawnAt : jsval;
  references : jsval;
  metadata : Metadata
}.

End Normalized.

Abbreviation NormalizedRecord := Normalized.NormalizedRecord.

Definition transform (advisory : RawRecord) : NormalizedRecord :=
  let '(packageName, ecosystem, affectedVersionRanges) :=
    match vulnerabilities advisory with
    | Some ((v0 :: _) as vs) =>
        (name (package v0), pkg_ecosystem (package v0),
         vulnerable_version_range <$> vs)
    | _ => ("unknown", "npm", [])
    end in
  {| Normalized.id :=
       "github:" +:+ ghsa_id advisory +:+ ":" +:+ ecosystem +:+ ":" +:+ packageName;
     Normalized.source := "github";
     Normalized.sourceId := ghsa_id advisory;
     Normalized.ecosystem := ecosystem;
     Normalized.packageName := packageName;
     Normalized.kind := "malware";
     Normalized.severity := severity advisory;
     Normalized.summary := summary advisory;
     Normalized.description := description advisory;
     Normalized.affectedVersionRanges := affectedVersionRanges;
     Normalized.firstPatchedVersion :=
       match vulnerabilities advisory with
       | Some (v0 :: _) => first_patched_version v0
       | _ => None
       end;
     Normalized.aliases :=
       match identifiers advisory with
       | Some ids => value <$> ids
       | None => []
       end;
     Normalized.cwes :=
       match cwes advisory with
       | Some cs => cwe_id <$> cs
       | None => []
       end;
     Normalized.publishedAt := iso (published_at advisory);
     Normalized.updatedAt := updated_at advisory;
     Normalized.withdrawnAt := withdrawn_at advisory;
     Normalized.references := references advisory;
     Normalized.metadata :=
       {| Normalized.htmlUrl := html_url advisory;
          Normalized.apiUrl := url advisory;
          Normalized.cvssScore :=
            match cvss advisory with
            | Some c => score c
            | None => VNull
            end |} |}.

(** The object literal of lines 174-197 as a JavaScript value. *)
Definition to_js (r : NormalizedRecord) : jsval :=
  VObj
    [ ("id", VStr (Normalized.id r));
      ("source", VStr (Normalized.source r));
      ("sourceId", VStr (Normalized.sourceId r));
      ("ecosystem", VStr (Normalized.ecosystem r));
      ("packageName", VStr (Normalized.packageName r));
      ("kind", VStr (Normalized.kind r));
      ("severity", Normalized.severity r);
      ("summary", Normalized.summary r);
      ("description", Normalized.description r);
      ("affectedVersionRanges", VArr (VStr <$> Normalized.affectedVersionRanges r));
      ("firstPatchedVersion",
        match Normalized.firstPatchedVersion r with
        | Some v => VStr v
        | None => VNull
        end);
      ("aliases", VArr (VStr <$> Normalized.aliases r));
      ("cwes", VArr (VStr <$> Normalized.cwes r));
      ("publishedAt", VStr (Normalized.publishedAt r));
      ("updatedAt", Normalized.updatedAt r);
      ("withdrawnAt", Normalized.withdrawnAt r);
      ("references", Normalized.references r);
      ("metadata",
        VObj [ ("htmlUrl", Normalized.htmlUrl (Normalized.metadata r));
               ("apiUrl", Normalized.apiUrl (Normalized.metadata r));
               ("cvssScore", Normalized.cvssScore (Normalized.metadata r)) ]) ].

(** A computation that returns a value or throws. *)
Inductive outcome (A : Type) : Type :=
| Ok (a : A)
| Raise (e : Thrown).

Arguments Ok {A} a.
Arguments Raise {A} e.

#[export] Instance outcome_bind : MBind outcome := fun A B f m =>
  match m with
  | Ok a => f a
  | Raise e => Raise e
  end.

(** [l.map(f)] for a callback that can raise. *)
Fixpoint array_map {A B : Type} (f : A -> outcome B) (l : list A)
  : outcome (list B) :=
  match l with
  | [] => Ok []
  | a :: rest => b ← f a; bs ← array_map f rest; Ok (b :: bs)
  end.

(** ** Property access on JavaScript data *)

Fixpoint assoc (k : string) (fields : list (string * jsval)) : option jsval :=
  match fields with
  | [] => None
  | (k', v) :: rest => if bool_decide (k' = k) then Some v else assoc k rest
  end.

(** [o.k] for a key [k] that is no built-in property of a string, number,
    boolean or array (the code reads [advisories] and [sourceId]). *)
Definition get_prop (o : jsval) (k : string) : outcome jsval :=
  match o with
  | VUndef | VNull => Raise (TypeError (ReadOfNullish k))
  | VObj fields => Ok (default VUndef (assoc k fields))
  | _ => Ok VUndef
  end.

Fixpoint replace_field (k : string) (v : jsval) (fields : list (string * jsval))
  : list (string * jsval) :=
  match fields with
  | [] => [(k, v)]
  | (k', v') :: rest =>
      if bool_decide (k' = k) then (k, v) :: rest
      else (k', v') :: replace_field k v rest
  end.

(** [o.k = v] on an object: an existing key keeps its place, a new key goes
    last. On a primitive the assignment has no effect. *)
Definition set_prop (o : jsval) (k : string) (v : jsval) : jsval :=
  match o with
  | VObj fields => VObj (replace_field k v fields)
  | _ => o
  end.

Definition isArray (v : jsval) : bool :=
  match v with VArr _ => true | _ => false end.

(** The elements of [a] when [a.map] is the array method; parsed JSON holds
    no function, so [a.map(...)] raises on every other value. *)
Definition array_for_map (a : jsval) : outcome (list jsval) :=
  match a with
  | VArr items => Ok items
  | VUndef | VNull => Raise (TypeError (ReadOfNullish "map"))
  | _ => Raise (TypeError (NotAFunction "map"))
  end.

(** [existingIds.has(k)] for a string [k]: a member equals [k] exactly when
    it is that string. *)
Definition Set_has (existingIds : list jsval) (k : string) : bool :=
  existsb (fun v => match v with VStr s => bool_decide (s = k) | _ => false end)
    existingIds.

(** ** Merge (lines 224-233) *)

(** The [for ... of transformedAdvisories] loop: the array
    [existingData.advisories], the set [existingIds] and [addedCount]. *)
Fixpoint merge_loop (transformedAdvisories : list NormalizedRecord)
    (advisories existingIds : list jsval) (addedCount : nat)
  : list jsval * list jsval * nat :=
  match transformedAdvisories with
  | [] => (advisories, existingIds, addedCount)
  | advisory :: rest =>
      if Set_has existingIds (Normalized.sourceId advisory)
      then merge_loop rest advisories existingIds addedCount
      else merge_loop rest
             (advisories ++ [to_js advisory])
             (existingIds ++ [VStr (Normalized.sourceId advisory)])
             (S addedCount)
  end.

(** [advisories.map(a => a.sourceId)] (line 224). *)
Definition source_ids (advisories : list jsval) : outcome (list jsval) :=
  array_map (fun a => get_prop a "sourceId") advisories.

(** Lines 224-233 on the array alone: raises when an element has no
    properties to read. *)
Definition merge_advisories (advisories : list jsval)
    (transformedAdvisories : list NormalizedRecord) : outcome (list jsval * nat) :=
  existingIds ← source_ids advisories;
  let '(advisories', _, addedCount) :=
    merge_loop transformedAdvisories advisories existingIds 0 in
  Ok (advisories', addedCount).

(** Lines 224-233 on [existingData]: the array is updated in place. *)
Definition merge (existingData : jsval)
    (transformedAdvisories : list NormalizedRecord) : outcome (jsval * nat) :=
  a ← get_prop existingData "advisories";
  advisories ← array_for_map a;
  '(advisories', addedCount) ← merge_advisories advisories transformedAdvisories;
  Ok (set_prop existingData "advisories" (VArr advisories'), addedCount).

(** ** One run of [fetchAdvisories] *)

Record Files := {
  dir_exists : bool;               (* [fs.existsSync(DATA_DIR)] *)
  data_file : option string        (* the content of [DATA_FILE], if it exists *)
}.

(** The three readings of the clock outside the loop. *)
Record Clock := {
  oneYearAgo : Z;                  (* lines 86-87 *)
  generatedAt_default : string;    (* [new Date().toISOString()], line 206 *)
  generatedAt_commit : string      (* [new Date().toISOString()], line 238 *)
}.

Record Finished := {
  exit_code : Z;
  files : Files;
  events : list Event
}.

Definition empty_snapshot (generatedAt : string) : jsval :=
  VObj [ ("schemaVersion", VStr "1.0");
         ("generatedAt", VStr generatedAt);
         ("advisories", VArr []) ].

(** Lines 84 and 88: what every run prints first. *)
Definition preamble (clock : Clock) : list Event :=
  [ELog LFetching; ELog (LSince (oneYearAgo clock))].

Section Run.

(** [JSON.parse] ([None] when it throws) and
    [v => JSON.stringify(v, null, 2)]. *)
Variable JSON_parse : string -> option jsval.
Variable JSON_stringify : jsval -> string.

(** Lines 204-222. *)
Definition load (fs : Files) (generatedAt : string) : jsval * list Event :=
  let existingData := empty_snapshot generatedAt in
  match data_file fs with
  | Some fileContent =>
      match JSON_parse fileContent with
      | Some parsed =>
          if isArray parsed then (existingData, [ELog LOldFormat])
          else (parsed, [])
      | None => (existingData, [EError LParseError])
      end
  | None => (existingData, [])
  end.

(** Lines 237-243. *)
Definition commit (existingData : jsval) (addedCount : nat)
    (generatedAt : string) (fs : Files) : Files * list Event :=
  if bool_decide (0 < addedCount)%nat
  then
    let existingData' := set_prop existingData "generatedAt" (VStr generatedAt) in
    let text := JSON_stringify existingData' in
    ({| dir_exists := dir_exists fs; data_file := Some text |},
     [EWrite text; ELog LSaved])
  else (fs, [ELog LNothingNew]).

(** The outer [catch] (lines 245-248). *)
Definition crash (e : Thrown) (fs : Files) (tr : list Event) : Finished :=
  {| exit_code := 1; files := fs;
     events := tr ++ [EError (LFailure e); EExit 1] |}.

(** Lines 200-202. *)
Definition ensure_dir (fs : Files) : Files * list Event :=
  if dir_exists fs then (fs, [])
  else ({| dir_exists := true; data_file := data_file fs |}, [EMkdir]).

(** Lines 161-243, after the loop ended normally. *)
Definition persist (clock : Clock) (fs : Files) (st : LoopState)
    (before : list Event) : Finished :=
  let fetched := allNewAdvisories st in
  let transformedAdvisories := transform <$> fetched in
  let '(fs1, made) := ensure_dir fs in
  let '(existingData, noted) := load fs1 (generatedAt_default clock) in
  let tr := before ++ [ELog (LFetched (length fetched))] ++ made ++ noted in
  match merge existingData transformedAdvisories with
  | Raise e => crash e fs1 tr
  | Ok (existingData', addedCount) =>
      let '(fs2, written) :=
        commit existingData' addedCount (generatedAt_commit clock) fs1 in
      {| exit_code := 0; files := fs2;
         events := tr ++ [ELog (LAdded addedCount)] ++ written |}
  end.

(** [fetchAdvisories()], its loop cut after [fuel] passes. *)
Definition run (fuel : nat) (remote : Remote) (clock : Clock) (fs : Files)
  : option Finished :=
  match fetch_loop fuel remote (oneYearAgo clock) initial_state with
  | None => None
  | Some (Failed e st, evs) => Some (crash (Axios e) fs (preamble clock ++ evs))
  | Some (Fetched st, evs) => Some (persist clock fs st (preamble clock ++ evs))
  end.

End Run.

(** ** The earlier revision

    [src/unnamed/part_000] is an earlier revision of the same function. It
    differs from the one above in two places: its loop has no page ceiling
    (lines 62-66), and its commit (lines 188-197) sets [generatedAt] before
    the test and also writes when the merged collection and the batch differ
    in length. Transformer, load and merge are the same. *)

Module Earlier.

Section Commit.

Variable JSON_stringify : jsval -> string.

Definition commit (existingData : jsval) (advisories : list jsval)
    (transformedAdvisories : list NormalizedRecord) (addedCount : nat)
    (generatedAt : string) (fs : Files) : Files * list Event :=
  let existingData' := set_prop existingData "generatedAt" (VStr generatedAt) in
  if bool_decide (0 < addedCount)%nat
     || negb (bool_decide (length advisories = length transformedAdvisories))
  then
    let text := JSON_stringify existingData' in
    ({| dir_exists := dir_exists fs; data_file := Some text |},
     [EWrite text; ELog LSaved])
  else (fs, [ELog LNothingNew]).

End Commit.

(** One pass of the loop of the earlier revision (lines 31-84): as the
    later one, without the test of the page counter. *)
Definition iteration (remote : Remote) (oneYearAgo : Z) (st : LoopState)
  : Step * list Event :=
  let sent := S (requests st) in
  match reply remote (requests st) (page st) with
  | Resolved data =>
      if bool_decide (length data = 0%nat)
      then (Leave {| page := page st; allNewAdvisories := allNewAdvisories st;
                     requests := sent |},
            asked st ++ [ELog LNoMoreData])
      else
        let '(acc, keepFetching, logged) :=
          scan oneYearAgo data (allNewAdvisories st) in
        if keepFetching
        then (Again {| page := S (page st); allNewAdvisories := acc;
                       requests := sent |},
              asked st ++ logged ++ [ESleep (Num 1000)])
        else (Leave {| page := page st; allNewAdvisories := acc; requests := sent |},
              asked st ++ logged)
  | Rejected error =>
      match response error with
      | Some r =>
          if bool_decide (status r = 429) || bool_decide (status r = 403)
          then (Again {| page := page st; allNewAdvisories := allNewAdvisories st;
                         requests := sent |},
                asked st ++ rate_limit_wait r (Date_now remote (requests st)))
          else (Throw error {| page := page st;
                               allNewAdvisories := allNewAdvisories st;
                               requests := sent |}, asked st)
      | None =>
          (Throw error {| page := page st; allNewAdvisories := allNewAdvisories st;
                          requests := sent |}, asked st)
      end
  end.

Fixpoint fetch_loop (fuel : nat) (remote : Remote) (oneYearAgo : Z)
    (st : LoopState) : option (LoopEnd * list Event) :=
  match fuel with
  | O => None
  | S fuel' =>
      match iteration remote oneYearAgo st with
      | (Again st', evs) =>
          match fetch_loop fuel' remote oneYearAgo st' with
          | Some (e, evs') => Some (e, evs ++ evs')
          | None => None
          end
      | (Leave st', evs) => Some (Fetched st', evs)
      | (Throw e st', evs) => Some (Failed e st', evs)
      end
  end.

(** [existingData.advisories] after the merge returned: an array. *)
Definition advisories_of (existingData : jsval) : list jsval :=
  match get_prop existingData "advisories" with
  | Ok (VArr items) => items
  | _ => []
  end.

Section Run.

Variable JSON_parse : string -> option jsval.
Variable JSON_stringify : jsval -> string.

(** Lines 86-197 of the earlier revision, after the loop ended normally. *)
Definition persist (clock : Clock) (fs : Files) (st : LoopState)
    (before : list Event) : Finished :=
  let fetched := allNewAdvisories st in
  let transformedAdvisories := transform <$> fetched in
  let '(fs1, made) := ensure_dir fs in
  let '(existingData, noted) := load JSON_parse fs1 (generatedAt_default clock) in
  let tr := before ++ [ELog (LFetched (length fetched))] ++ made ++ noted in
  match merge existingData transformedAdvisories with
  | Raise e => crash e fs1 tr
  | Ok (existingData', addedCount) =>
      let '(fs2, written) :=
        commit JSON_stringify existingData' (advisories_of existingData')
          transformedAdvisories addedCount (generatedAt_commit clock) fs1 in
      {| exit_code := 0; files := fs2;
         events := tr ++ [ELog (LAdded addedCount)] ++ written |}
  end.

Definition run (fuel : nat) (remote : Remote) (clock : Clock) (fs : Files)
  : option Finished :=
  match fetch_loop fuel remote (oneYearAgo clock) initial_state with
  | None => None
  | Some (Failed e st, evs) => Some (crash (Axios e) fs (preamble clock ++ evs))
  | Some (Fetched st, evs) => Some (persist clock fs st (preamble clock ++ evs))
  end.

End Run.

End Earlier.

(** ** The first revision

    Lines 9-71 of [src/fetch_advisories.js]: one request without paging,
    cutoff or retry; the file is a bare list of the advisories as they were
    received, keyed by [ghsa_id]. The one request is not an event of the
    run: the run is given its outcome. *)

Module First.

Section Run.

Variable JSON_parse : string -> option jsval.
Variable JSON_stringify : jsval -> string.

(** The JSON object a record of the response is. *)
Variable received : RawRecord -> jsval.

(** Lines 35-43. *)
Definition load (fs : Files) : jsval * list Event :=
  match data_file fs with
  | Some fileContent =>
      match JSON_parse fileContent with
      | Some parsed => (parsed, [])
      | None => (VArr [], [EError LParseError])
      end
  | None => (VArr [], [])
  end.

(** The [for ... of newAdvisories] loop (lines 49-55). *)
Fixpoint merge_loop (newAdvisories : list RawRecord)
    (existingAdvisories existingIds : list jsval) (addedCount : nat)
  : list jsval * list jsval * nat :=
  match newAdvisories with
  | [] => (existingAdvisories, existingIds, addedCount)
  | advisory :: rest =>
      if Set_has existingIds (ghsa_id advisory)
      then merge_loop rest existingAdvisories existingIds addedCount
      else merge_loop rest
             (existingAdvisories ++ [received advisory])
             (existingIds ++ [VStr (ghsa_id advisory)])
             (S addedCount)
  end.

(** Lines 46-55: [existingAdvisories] is whatever the file parsed to. *)
Definition merge (existingAdvisories : jsval) (newAdvisories : list RawRecord)
  : outcome (list jsval * nat) :=
  items ← array_for_map existingAdvisories;
  existingIds ← array_map (fun a => get_prop a "ghsa_id") items;
  let '(items', _, addedCount) := merge_loop newAdvisories items existingIds 0 in
  Ok (items', addedCount).

(** Lines 59-65. *)
Definition commit (existingAdvisories : list jsval) (addedCount : nat)
    (fs : Files) : Files * list Event :=
  if bool_decide (0 < addedCount)%nat
  then
    let text := JSON_stringify (VArr existingAdvisories) in
    ({| dir_exists := dir_exists fs; data_file := Some text |},
     [EWrite text; ELog LSaved])
  else (fs, [ELog LNothingNew]).

(** [fetchAdvisories()] of the first revision, given how the request ends. *)
Definition run (answer : Reply) (fs : Files) : Finished :=
  match answer with
  | Rejected error => crash (Axios error) fs [ELog LFetching]
  | Resolved newAdvisories =>
      let '(fs1, made) := ensure_dir fs in
      let '(existingAdvisories, noted) := load fs1 in
      let tr :=
        [ELog LFetching; ELog (LFetched (length newAdvisories))]
          ++ made ++ noted in
      match merge existingAdvisories newAdvisories with
      | Raise e => crash e fs1 tr
      | Ok (existingAdvisories', addedCount) =>
          let '(fs2, written) := commit existingAdvisories' addedCount fs1 in
          {| exit_code := 0; files := fs2;
             events := tr ++ [ELog (LAdded addedCount)] ++ written |}
      end
  end.

End Run.

End First.

(** The records of a response whose [ghsa_id] is neither in [seen] nor
    carried by an earlier record of the response. *)
Fixpoint first_by_ghsa (seen : list string) (data : list RawRecord)
  : list RawRecord :=
  match data with
  | [] => []
  | r :: rest =>
      if bool_decide (ghsa_id r ∈ seen)
      then first_by_ghsa seen rest
      else r :: first_by_ghsa (seen ++ [ghsa_id r]) rest
  end.

(** ** Vocabulary of the statements *)

(** The string members of a set of identity keys. *)
Definition string_keys (existingIds : list jsval) : list string :=
  omap (fun v => match v with VStr s => Some s | _ => None end) existingIds.

(** The records of a batch whose identity key is neither in [seen] nor
    carried by an earlier record of the batch: what the merge is said to
    append. *)
Fixpoint first_occurrences (seen : list string) (batch : list NormalizedRecord)
  : list NormalizedRecord :=
  match batch with
  | [] => []
  | r :: rest =>
      if bool_decide (Normalized.sourceId r ∈ seen)
      then first_occurrences seen rest
      else r :: first_occurrences (seen ++ [Normalized.sourceId r]) rest
  end.

Definition key_of (r : NormalizedRecord) : jsval := VStr (Normalized.sourceId r).

(** The contents passed to [fs.writeFileSync], in order. *)
Definition writes (evs : list Event) : list string :=
  omap (fun e => match e with EWrite c => Some c | _ => None end) evs.

(** The page numbers asked for, in order. *)
Definition pages_requested (evs : list Event) : list nat :=
  omap (fun e => match e with EGet p => Some p | _ => None end) evs.

(** The pauses, in order. *)
Definition sleeps (evs : list Event) : list jsnum :=
  omap (fun e => match e with ESleep ms => Some ms | _ => None end) evs.

(** The loop after [n] passes that all went back to the test: the state it
    stands in and what it did so far. *)
Fixpoint passes (n : nat) (remote : Remote) (oneYearAgo : Z) (st : LoopState)
  : option (LoopState * list Event) :=
  match n with
  | O => Some (st, [])
  | S n' =>
      match iteration remote oneYearAgo st with
      | (Again st', evs) =>
          match passes n' remote oneYearAgo st' with
          | Some (st'', evs') => Some (st'', evs ++ evs')
          | None => None
          end
      | _ => None
      end
  end.

Definition end_state (e : LoopEnd) : LoopState :=
  match e with Fetched st | Failed _ st => st end.

(** A page in the order the endpoint is asked for: newest first. *)
Definition descending (data : list RawRecord) : Prop :=
  ∀ i j a b, (i < j)%nat → data !! i = Some a → data !! j = Some b →
    instant (published_at b) <= instant (published_at a).

(** [remote] with one more reply: request number [k] is rejected with [e]
    (the clock reads [now_ms] then), the requests before it are answered as
    before and each later one as the request before it was. *)
Definition induce_failure (k : nat) (e : AxiosError) (now_ms : Z)
    (remote : Remote) : Remote :=
  {| reply n p :=
       if bool_decide (n < k)%nat then reply remote n p
       else if bool_decide (n = k) then Rejected e
       else reply remote (pred n) p;
     Date_now n :=
       if bool_decide (n < k)%nat then Date_now remote n
       else if bool_decide (n = k) then now_ms
       else Date_now remote (pred n) |}.

(** The snapshot has the versioned shape with a list of records. *)
Definition has_advisories_list (v : jsval) : bool :=
  match v with
  | VObj fields =>
      match assoc "advisories" fields with
      | Some (VArr _) => true
      | _ => false
      end
  | _ => false
  end.

(** The identity keys of a loaded snapshot, as line 224 computes them. *)
Definition existing_keys (existingData : jsval) : outcome (list jsval) :=
  a ← get_prop existingData "advisories";
  advisories ← array_for_map a;
  source_ids advisories.

(** A record is within the window: not older than the cutoff. *)
Definition recent (oneYearAgo : Z) (r : RawRecord) : Prop :=
  oneYearAgo <= instant (published_at r).

(** The same loop state in a run that has sent [n] requests. *)
Definition with_requests (n : nat) (st : LoopState) : LoopState :=
  {| page := page st; allNewAdvisories := allNewAdvisories st; requests := n |}.

Definition step_with_requests (n : nat) (s : Step) : Step :=
  match s with
  | Again st => Again (with_requests n st)
  | Leave st => Leave (with_requests n st)
  | Throw e st => Throw e (with_requests n st)
  end.

Definition one_more_request (e : LoopEnd) : LoopEnd :=
  match e with
  | Fetched st => Fetched (with_requests (S (requests st)) st)
  | Failed x st => Failed x (with_requests (S (requests st)) st)
  end.

(** The reply is a rate-limit rejection. *)
Definition rate_limited (r : Reply) : bool :=
  match r with
  | Rejected e => is_rate_limit e
  | Resolved _ => false
  end.

(** What a pass shows for page [p] when it accepts the whole page and the
    loop goes on. *)
Definition full_page_events (p : nat) : list Event :=
  [ELog (LPage p); EGet p; ESleep (Num 1000)].

(** Each number is the one before it or its successor. *)
Definition steps_by_one (l : list nat) : Prop :=
  ∀ i p q, l !! i = Some p → l !! S i = Some q → q = p ∨ q = S p.

(** The two ways a run ends: with exit code 0, the file written at most once
    and holding what was written; or with the error logged and exit code 1,
    nothing written and the file as it was. *)
Definition ends_well (fs : Files) (fin : Finished) : Prop :=
  exit_code fin = 0
  ∧ ((writes (events fin) = [] ∧ data_file (files fin) = data_file fs)
     ∨ ∃ text, writes (events fin) = [text]
               ∧ data_file (files fin) = Some text).

Definition ends_badly (fs : Files) (fin : Finished) : Prop :=
  exit_code fin = 1
  ∧ writes (events fin) = []
  ∧ data_file (files fin) = data_file fs
  ∧ ∃ tr thrown, events fin = tr ++ [EError (LFailure thrown); EExit 1].

(** ** Sample data *)

Module Sample.

Definition cutoff : Z := 1700000000000.

Definition advisory (ghsa : string) (text : string) (ms : Z)
    (vulns : option (list Vulnerability)) : RawRecord :=
  {| ghsa_id := ghsa;
     published_at := {| iso := text; instant := ms |};
     updated_at := VStr text;
     withdrawn_at := VNull;
     severity := VStr "critical";
     summary := VStr "Malware in package";
     description := VUndef;
     vulnerabilities := vulns;
     identifiers := Some [ {| id_type := "GHSA"; value := ghsa |} ];
     cwes := Some [ {| cwe_id := "CWE-506"; cwe_name := "Embedded Malicious Code" |} ];
     references := VArr [];
     html_url := VStr "https://github.com/advisories";
     url := VStr "https://api.github.com/advisories";
     cvss := None |}.

Definition left_pad : Vulnerability :=
  {| package := {| name := "left-pad"; pkg_ecosystem := "npm" |};
     vulnerable_version_range := ">= 0";
     first_patched_version := None |}.

Definition right_pad : Vulnerability :=
  {| package := {| name := "right-pad"; pkg_ecosystem := "npm" |};
     vulnerable_version_range := "< 1.0.1";
     first_patched_version := Some "1.0.1" |}.

(** newer than the cutoff, at the cutoff, one second older *)
Definition newer : RawRecord :=
  advisory "GHSA-aaaa-aaaa-aaaa" "2023-11-14T22:13:25Z" (cutoff + 5000)
    (Some [left_pad; right_pad]).
Definition at_cutoff : RawRecord :=
  advisory "GHSA-bbbb-bbbb-bbbb" "2023-11-14T22:13:20Z" cutoff None.
Definition older : RawRecord :=
  advisory "GHSA-cccc-cccc-cccc" "2023-11-14T22:13:19Z" (cutoff - 1000) (Some []).

Definition clock : Clock :=
  {| oneYearAgo := cutoff;
     generatedAt_default := "2024-11-14T22:13:20.000Z";
     generatedAt_commit := "2024-11-14T22:13:25.000Z" |}.

(** One page of three records; every other page is empty. *)
Definition remote : Remote :=
  {| reply _ p :=
       match p with
       | 1%nat => Resolved [newer; at_cutoff; older]
       | _ => Resolved []
       end;
     Date_now _ := 1731622400000 |}.

(** Two pages within the year, then nothing. *)
Definition two_pages : Remote :=
  {| reply _ p :=
       match p with
       | 1%nat => Resolved [newer]
       | 2%nat => Resolved [at_cutoff]
       | _ => Resolved []
       end;
     Date_now _ := 1731622400000 |}.

Definition rejection (code : Z) (h : gmap string string) : AxiosError :=
  {| message := "Request failed";
     response := Some {| status := code; headers := h |} |}.

(** [429] with [retry-after: 5] and no other rate-limit header. *)
Definition retry_after_5 : AxiosError :=
  rejection 429 {[ "retry-after" := "5" ]}.

(** Always rate limited. *)
Definition always_429 : Remote :=
  {| reply _ _ := Rejected (rejection 429 ∅);
     Date_now _ := 1731622400000 |}.

(** The server fails on the second request. *)
Definition fails_on_page_2 : Remote :=
  {| reply _ p :=
       match p with
       | 1%nat => Resolved [newer]
       | _ => Rejected (rejection 500 ∅)
       end;
     Date_now _ := 1731622400000 |}.

(** Nothing to fetch. *)
Definition nothing : Remote :=
  {| reply _ _ := Resolved []; Date_now _ := 1731622400000 |}.

Definition stringify (v : jsval) : string :=
  match v with
  | VObj (("schemaVersion", VStr ver) :: ("generatedAt", VStr t) :: _) =>
      "snapshot " +:+ ver +:+ " " +:+ t
  | _ => "other"
  end.

Definition batch : list NormalizedRecord :=
  [transform newer; transform at_cutoff; transform newer].

(** The data directory with a snapshot file of the given content. *)
Definition with_file (content : string) : Files :=
  {| dir_exists := true; data_file := Some content |}.

(** A snapshot that already holds two records. *)
Definition snapshot : jsval :=
  VObj [ ("schemaVersion", VStr "1.0");
         ("generatedAt", VStr "2024-11-13T00:00:00.000Z");
         ("advisories", VArr [to_js (transform older); to_js (transform newer)]) ].

Definition snapshot_keys : list jsval :=
  [VStr "GHSA-cccc-cccc-cccc"; VStr "GHSA-aaaa-aaaa-aaaa"].

(** A parser for four file contents: a legacy list, an object without
    records, and the snapshot above. *)
Definition parse (text : string) : option jsval :=
  if bool_decide (text = "[]") then Some (VArr [])
  else if bool_decide (text = "[1]") then Some (VArr [VNum 1])
  else if bool_decide (text = "{}") then Some (VObj [])
  else if bool_decide (text = "snapshot") then Some snapshot
  else None.

(** One page with a record the snapshot above already holds. *)
Definition known_only : Remote :=
  {| reply _ p :=
       match p with
       | 1%nat => Resolved [newer]
       | _ => Resolved []
       end;
     Date_now _ := 1731622400000 |}.

(** Every page holds one recent record. *)
Definition endless : Remote :=
  {| reply _ _ := Resolved [newer]; Date_now _ := 1731622400000 |}.

(** [403] with a reset 30 seconds after the clock of the sample remotes,
    and a [retry-after] header. *)
Definition forbidden_until_reset : AxiosError :=
  rejection 403
    (<[ "retry-after" := "5" ]> {[ "x-ratelimit-reset" := "1731622430" ]}).

(** No data directory yet. *)
Definition no_directory : Files :=
  {| dir_exists := false; data_file := None |}.

(** A parser that reads back the one text [stringify] makes of the snapshot
    of the two recent records, committed at the time of [clock]. *)
Definition parse_written (text : string) : option jsval :=
  if bool_decide (text = "snapshot 1.0 2024-11-14T22:13:25.000Z")
  then Some (VObj [ ("schemaVersion", VStr "1.0");
                    ("generatedAt", VStr "2024-11-14T22:13:25.000Z");
                    ("advisories",
                      VArr [to_js (transform newer); to_js (transform at_cutoff)]) ])
  else None.

(** The clock of a run one second later: the record at the former cutoff
    is now too old. *)
Definition a_second_later : Clock :=
  {| oneYearAgo := cutoff + 1000;
     generatedAt_default := "2024-11-14T22:13:21.000Z";
     generatedAt_commit := "2024-11-14T22:13:26.000Z" |}.

(** A record as received, cut down to its identifier. *)
Definition as_received (r : RawRecord) : jsval :=
  VObj [ ("ghsa_id", VStr (ghsa_id r)) ].

End Sample.

(** The versioned snapshot that holds exactly the given records. *)
Definition snapshot_of (generatedAt : string) (records : list NormalizedRecord)
  : jsval :=
  VObj [ ("schemaVersion", VStr "1.0");
         ("generatedAt", VStr generatedAt);
         ("advisories", VArr (to_js <$> records)) ].

(** * Properties *)

(** ** The merge appends the first occurrences of the new keys *)

Section MergeFacts.

Implicit Types (batch added : list NormalizedRecord) (seen : list string).
Implicit Types (items existingIds : list jsval).

Lemma string_keys_app existingIds1 existingIds2 :
  string_keys (existingIds1 ++ existingIds2)
  = string_keys existingIds1 ++ string_keys existingIds2.
Proof. apply omap_app. Qed.

Lemma string_keys_key_of added :
  string_keys (key_of <$> added) = Normalized.sourceId <$> added.
Proof. induction added as [|r added IH]; csimpl; [done | by rewrite IH]. Qed.

Lemma elem_of_string_keys existingIds k :
  k ∈ string_keys existingIds ↔ VStr k ∈ existingIds.
Proof.
  unfold string_keys. rewrite list_elem_of_omap. split.
  - intros (v & Hin & Hv). destruct v; simplify_eq. done.
  - intros Hin. exists (VStr k). done.
Qed.

Lemma Set_has_spec existingIds k :
  Set_has existingIds k = bool_decide (k ∈ string_keys existingIds).
Proof.
  induction existingIds as [|v ids IH]; simpl.
  - done.
  - rewrite IH. destruct v; simpl; try done.
    destruct (decide (s = k)) as [->|Hne].
    + rewrite bool_decide_eq_true_2 by done. simpl.
      symmetry. apply bool_decide_eq_true_2. left.
    + rewrite (bool_decide_eq_false_2 (s = k)) by done. simpl.
      apply bool_decide_ext. rewrite elem_of_cons.
      split; [by right | by intros [[= ?]|?]].
Qed.

Lemma merge_loop_spec batch items existingIds n :
  merge_loop batch items existingIds n
  = (items ++ (to_js <$> first_occurrences (string_keys existingIds) batch),
     existingIds ++ (key_of <$> first_occurrences (string_keys existingIds) batch),
     (n + length (first_occurrences (string_keys existingIds) batch))%nat).
Proof.
  revert items existingIds n.
  induction batch as [|r batch IH]; intros items ids n; simpl.
  - by rewrite !app_nil_r, Nat.add_0_r.
  - rewrite Set_has_spec. case_bool_decide as Hin; [apply IH |].
    rewrite IH, string_keys_app. simpl.
    rewrite <- !app_assoc. simpl. f_equal. lia.
Qed.

Lemma first_occurrences_sublist seen batch :
  first_occurrences seen batch `sublist_of` batch.
Proof.
  revert seen. induction batch as [|r batch IH]; intros seen; simpl; [done |].
  case_bool_decide; [apply sublist_cons | apply sublist_skip]; apply IH.
Qed.

Lemma first_occurrences_fresh seen batch r :
  r ∈ first_occurrences seen batch → Normalized.sourceId r ∉ seen.
Proof.
  revert seen. induction batch as [|r' batch IH]; intros seen; simpl.
  - by intros ?%elem_of_nil.
  - case_bool_decide as Hin; [apply IH |].
    intros [->|Hr]%elem_of_cons; [done |].
    apply IH in Hr. intros ?. apply Hr, elem_of_app. by left.
Qed.

Lemma first_occurrences_NoDup seen batch :
  NoDup (Normalized.sourceId <$> first_occurrences seen batch).
Proof.
  revert seen. induction batch as [|r batch IH]; intros seen; simpl.
  - constructor.
  - case_bool_decide as Hin; [apply IH |].
    simpl. constructor; [| apply IH].
    intros (r' & Heq & Hr')%list_elem_of_fmap.
    apply first_occurrences_fresh in Hr'. apply Hr'.
    rewrite <- Heq. apply elem_of_app. right. by apply list_elem_of_singleton.
Qed.

(** After the walk every key of the batch is in the set. *)
Lemma first_occurrences_covers seen batch r :
  r ∈ batch →
  Normalized.sourceId r
    ∈ seen ++ (Normalized.sourceId <$> first_occurrences seen batch).
Proof.
  revert seen. induction batch as [|r' batch IH]; intros seen.
  - by intros ?%elem_of_nil.
  - simpl. intros [->|Hr]%elem_of_cons.
    + case_bool_decide as Hin.
      * apply elem_of_app. by left.
      * simpl. apply elem_of_app. right. left.
    + case_bool_decide as Hin; [by apply IH |].
      simpl. specialize (IH (seen ++ [Normalized.sourceId r']) Hr).
      by rewrite <- app_assoc in IH.
Qed.

Lemma first_occurrences_nil seen batch :
  first_occurrences seen batch = []
  ↔ ∀ r, r ∈ batch → Normalized.sourceId r ∈ seen.
Proof.
  revert seen. induction batch as [|r batch IH]; intros seen; simpl.
  - split; [| done]. by intros _ r ?%elem_of_nil.
  - case_bool_decide as Hin.
    + rewrite IH. split.
      * intros H r' [->|Hr']%elem_of_cons; auto.
      * intros H r' Hr'. apply H. by right.
    + split; [done |]. intros H. destruct Hin. apply H. left.
Qed.

Lemma first_occurrences_again seen batch :
  first_occurrences
    (seen ++ (Normalized.sourceId <$> first_occurrences seen batch)) batch = [].
Proof. apply first_occurrences_nil. intros r. apply first_occurrences_covers. Qed.

Lemma source_ids_app items1 items2 ks1 ks2 :
  source_ids items1 = Ok ks1 → source_ids items2 = Ok ks2 →
  source_ids (items1 ++ items2) = Ok (ks1 ++ ks2).
Proof.
  unfold source_ids. revert ks1.
  induction items1 as [|a items1 IH]; intros ks1; simpl.
  - by intros [= <-].
  - destruct (get_prop a "sourceId") as [k|]; simpl; [| done].
    destruct (array_map _ items1) as [ks|] eqn:E; simpl; [| done].
    intros [= <-] H2. by rewrite (IH ks eq_refl H2).
Qed.

Lemma source_ids_to_js added :
  source_ids (to_js <$> added) = Ok (key_of <$> added).
Proof.
  unfold source_ids. induction added as [|r added IH]; csimpl; [done |].
  by rewrite IH.
Qed.

End MergeFacts.

(** ** The merge on [existingData] *)

Section MergeObject.

Implicit Types (fields : list (string * jsval)) (batch : list NormalizedRecord).

Lemma assoc_replace_field k v fields :
  assoc k (replace_field k v fields) = Some v.
Proof.
  induction fields as [|[k' v'] fields IH]; simpl.
  - by rewrite bool_decide_eq_true_2.
  - case_bool_decide as Hk; simpl.
    + by rewrite bool_decide_eq_true_2.
    + by rewrite bool_decide_eq_false_2.
Qed.

Lemma replace_field_twice k v w fields :
  replace_field k v (replace_field k w fields) = replace_field k v fields.
Proof.
  induction fields as [|[k' v'] fields IH]; simpl.
  - by rewrite bool_decide_eq_true_2.
  - case_bool_decide as Hk; simpl.
    + by rewrite bool_decide_eq_true_2.
    + rewrite bool_decide_eq_false_2 by done. by rewrite IH.
Qed.

(** The shape a snapshot has when its keys can be read. *)
Lemma existing_keys_Ok existingData keys :
  existing_keys existingData = Ok keys →
  ∃ fields items,
    existingData = VObj fields ∧ assoc "advisories" fields = Some (VArr items)
    ∧ source_ids items = Ok keys.
Proof.
  unfold existing_keys. destruct existingData as [| | | | | |fields]; try done.
  simpl. destruct (assoc "advisories" fields) as [a|] eqn:Ha; [| done].
  destruct a as [| | | | |items|]; try done. simpl. eauto.
Qed.

Lemma merge_VObj fields items keys batch :
  assoc "advisories" fields = Some (VArr items) →
  source_ids items = Ok keys →
  merge (VObj fields) batch
  = Ok (VObj (replace_field "advisories"
                (VArr (items ++ (to_js <$> first_occurrences (string_keys keys) batch)))
                fields),
        length (first_occurrences (string_keys keys) batch)).
Proof.
  intros Ha Hk. unfold merge, merge_advisories. simpl. rewrite Ha. simpl.
  rewrite Hk. simpl. by rewrite merge_loop_spec.
Qed.

(** [merge] returns exactly when the keys can be read. *)
Lemma merge_Ok existingData batch existingData' n :
  merge existingData batch = Ok (existingData', n) →
  ∃ keys, existing_keys existingData = Ok keys.
Proof.
  unfold merge, existing_keys, merge_advisories.
  destruct (get_prop existingData "advisories") as [a|]; simpl; [| done].
  destruct (array_for_map a) as [items|]; simpl; [| done].
  destruct (source_ids items) as [keys|]; simpl; [eauto | done].
Qed.

Lemma merge_Raise existingData batch e :
  existing_keys existingData = Raise e → merge existingData batch = Raise e.
Proof.
  unfold merge, existing_keys, merge_advisories.
  destruct (get_prop existingData "advisories") as [a|]; simpl;
    [| by intros [= ->]].
  destruct (array_for_map a) as [items|]; simpl; [| by intros [= ->]].
  destruct (source_ids items) as [keys|]; simpl; [done | by intros [= ->]].
Qed.

End MergeObject.

(** ** Idempotence and the uniqueness invariant of the merge *)

(** C4. Merging a batch into the result of merging that same batch changes
    nothing: the second merge returns the same snapshot and adds no record. *)
Theorem C4_merge_idempotent (existingData existingData' : jsval)
    (batch : list NormalizedRecord) (n : nat) :
  merge existingData batch = Ok (existingData', n) →
  merge existingData' batch = Ok (existingData', 0%nat).
Proof.
  intros Hm. destruct (merge_Ok _ _ _ _ Hm) as [keys Hk].
  destruct (existing_keys_Ok _ _ Hk) as (fields & items & -> & Ha & Hs).
  rewrite (merge_VObj _ _ _ _ Ha Hs) in Hm. injection Hm as <- <-.
  set (added := first_occurrences (string_keys keys) batch).
  rewrite (merge_VObj _ (items ++ (to_js <$> added)) (keys ++ (key_of <$> added))).
  - rewrite string_keys_app, string_keys_key_of.
    unfold added. rewrite first_occurrences_again. simpl.
    by rewrite app_nil_r, replace_field_twice.
  - apply assoc_replace_field.
  - apply source_ids_app; [done | apply source_ids_to_js].
Qed.

Lemma C4_merge_idempotent_witness :
  ∃ merged,
    merge (empty_snapshot "2024-11-14T22:13:20.000Z") Sample.batch
      = Ok (merged, 2%nat)
    ∧ merge merged Sample.batch = Ok (merged, 0%nat).
Proof.
  eexists. split; [reflexivity |].
  apply (C4_merge_idempotent (empty_snapshot "2024-11-14T22:13:20.000Z") _
           Sample.batch 2).
  reflexivity.
Defined.

Lemma NoDup_keys_app (keys : list jsval) (added : list NormalizedRecord) :
  NoDup keys →
  NoDup (Normalized.sourceId <$> added) →
  (∀ r, r ∈ added → Normalized.sourceId r ∉ string_keys keys) →
  NoDup (keys ++ (key_of <$> added)).
Proof.
  intros Hk Ha Hfresh. apply NoDup_app. split; [done | split].
  - intros k Hin (r & -> & Hr)%list_elem_of_fmap.
    apply (Hfresh r Hr). by apply elem_of_string_keys.
  - replace (key_of <$> added) with (VStr <$> (Normalized.sourceId <$> added))
      by (by rewrite <- list_fmap_compose).
    apply NoDup_fmap_2; [| done]. by intros ?? [= ?].
Qed.

(** C5. On a snapshot whose identity keys are pairwise distinct, the merge of
    any batch (duplicates inside the batch included) returns; the merged
    collection is the existing one, unchanged and in order, followed by
    records of the batch in their order; and its identity keys are again
    pairwise distinct. *)
Theorem C5_merge_preserves_uniqueness (existingData : jsval)
    (keys : list jsval) (batch : list NormalizedRecord) :
  existing_keys existingData = Ok keys →
  NoDup keys →
  ∃ (items : list jsval) (added : list NormalizedRecord),
    get_prop existingData "advisories" = Ok (VArr items)
    ∧ added `sublist_of` batch
    ∧ merge existingData batch
      = Ok (set_prop existingData "advisories" (VArr (items ++ (to_js <$> added))),
            length added)
    ∧ existing_keys
        (set_prop existingData "advisories" (VArr (items ++ (to_js <$> added))))
      = Ok (keys ++ (key_of <$> added))
    ∧ NoDup (keys ++ (key_of <$> added)).
Proof.
  intros Hk Hnd.
  destruct (existing_keys_Ok _ _ Hk) as (fields & items & -> & Ha & Hs).
  exists items, (first_occurrences (string_keys keys) batch).
  split; [by simpl; rewrite Ha |].
  split; [apply first_occurrences_sublist |].
  split; [by apply merge_VObj |].
  split.
  - unfold existing_keys. simpl. rewrite assoc_replace_field. simpl.
    apply source_ids_app; [done | apply source_ids_to_js].
  - apply NoDup_keys_app; [done | apply first_occurrences_NoDup |].
    intros r. apply first_occurrences_fresh.
Qed.

Lemma C5_merge_preserves_uniqueness_witness :
  ∃ (items : list jsval) (added : list NormalizedRecord),
    get_prop Sample.snapshot "advisories" = Ok (VArr items)
    ∧ added `sublist_of` Sample.batch
    ∧ merge Sample.snapshot Sample.batch
      = Ok (set_prop Sample.snapshot "advisories"
              (VArr (items ++ (to_js <$> added))),
            length added)
    ∧ existing_keys
        (set_prop Sample.snapshot "advisories" (VArr (items ++ (to_js <$> added))))
      = Ok (Sample.snapshot_keys ++ (key_of <$> added))
    ∧ NoDup (Sample.snapshot_keys ++ (key_of <$> added)).
Proof.
  apply (C5_merge_preserves_uniqueness
           Sample.snapshot Sample.snapshot_keys Sample.batch).
  - reflexivity.
  - constructor.
    + intros H. apply list_elem_of_singleton in H. discriminate H.
    + constructor; [| constructor]. intros H. by apply elem_of_nil in H.
Defined.

(** ** The transformer *)

(** C7. A raw record without vulnerability entries (the field absent, or an
    empty list) is transformed, without an error, into a record with package
    name "unknown", ecosystem "npm", no affected-version range and a null
    first-patched version; a record with entries gets one range per entry,
    in the order of the raw record. *)
Theorem C7_transform_defaults (advisory : RawRecord) :
  (vulnerabilities advisory = None ∨ vulnerabilities advisory = Some [] →
     Normalized.packageName (transform advisory) = "unknown"
     ∧ Normalized.ecosystem (transform advisory) = "npm"
     ∧ Normalized.affectedVersionRanges (transform advisory) = []
     ∧ Normalized.firstPatchedVersion (transform advisory) = None)
  ∧ (∀ vs, vulnerabilities advisory = Some vs →
       Normalized.affectedVersionRanges (transform advisory)
       = vulnerable_version_range <$> vs).
Proof.
  unfold transform. split.
  - by intros [-> | ->].
  - intros vs ->. by destruct vs.
Qed.

Lemma C7_transform_defaults_witness :
  (Normalized.packageName (transform Sample.at_cutoff) = "unknown"
   ∧ Normalized.ecosystem (transform Sample.at_cutoff) = "npm"
   ∧ Normalized.affectedVersionRanges (transform Sample.at_cutoff) = []
   ∧ Normalized.firstPatchedVersion (transform Sample.at_cutoff) = None)
  ∧ (Normalized.packageName (transform Sample.older) = "unknown"
     ∧ Normalized.ecosystem (transform Sample.older) = "npm"
     ∧ Normalized.affectedVersionRanges (transform Sample.older) = []
     ∧ Normalized.firstPatchedVersion (transform Sample.older) = None)
  ∧ Normalized.affectedVersionRanges (transform Sample.newer) = [">= 0"; "< 1.0.1"].
Proof.
  split; [| split].
  - apply (proj1 (C7_transform_defaults Sample.at_cutoff)). left. reflexivity.
  - apply (proj1 (C7_transform_defaults Sample.older)). right. reflexivity.
  - apply (proj2 (C7_transform_defaults Sample.newer)
             [Sample.left_pad; Sample.right_pad]).
    reflexivity.
Defined.

(** ** The fetch loop *)

Section LoopFacts.

Variable remote : Remote.
Variable cutoff : Z.

Implicit Types (st : LoopState) (data acc : list RawRecord).

Lemma scan_all_recent data acc :
  Forall (recent cutoff) data → scan cutoff data acc = (acc ++ data, true, []).
Proof.
  revert acc. induction data as [|r data IH]; intros acc Hall; simpl.
  - by rewrite app_nil_r.
  - apply Forall_cons in Hall as [Hr Hall]. unfold recent in Hr.
    rewrite bool_decide_eq_false_2 by lia.
    rewrite IH by done. by rewrite <- app_assoc.
Qed.

Lemma scan_stops data1 r data2 acc :
  Forall (recent cutoff) data1 →
  instant (published_at r) < cutoff →
  scan cutoff (data1 ++ r :: data2) acc
  = (acc ++ data1, false, [ELog (LOlderThanCutoff (iso (published_at r)))]).
Proof.
  revert acc. induction data1 as [|r1 data1 IH]; intros acc Hall Hold; simpl.
  - rewrite bool_decide_eq_true_2 by done. by rewrite app_nil_r.
  - apply Forall_cons in Hall as [Hr Hall]. unfold recent in Hr.
    rewrite bool_decide_eq_false_2 by lia.
    rewrite IH by done. by rewrite <- app_assoc.
Qed.

(** The scan only ever accepts records within the window, and writes no
    file. *)
Lemma scan_recent data acc acc' keep logged :
  scan cutoff data acc = (acc', keep, logged) →
  Forall (recent cutoff) acc →
  Forall (recent cutoff) acc'.
Proof.
  revert acc. induction data as [|r data IH]; intros acc; simpl.
  - by intros [= <- _ _].
  - case_bool_decide as Hr; [by intros [= <- _ _] |].
    intros Hs Hacc. apply (IH _ Hs). apply Forall_app. split; [done |].
    apply Forall_singleton. unfold recent. lia.
Qed.

Lemma scan_logged data acc acc' keep logged :
  scan cutoff data acc = (acc', keep, logged) →
  writes logged = [] ∧ pages_requested logged = [] ∧ sleeps logged = [].
Proof.
  revert acc. induction data as [|r data IH]; intros acc; simpl.
  - by intros [= _ _ <-].
  - case_bool_decide as Hr; [by intros [= _ _ <-] |]. apply IH.
Qed.

Lemma iteration_requests st s evs :
  iteration remote cutoff st = (s, evs) →
  match s with Again st' | Leave st' | Throw _ st' =>
    requests st' = S (requests st)
  end.
Proof.
  unfold iteration.
  destruct (reply remote (requests st) (page st)) as [data|e].
  - case_bool_decide; [by intros [= <- _] |].
    destruct (scan cutoff data (allNewAdvisories st)) as [[acc keep] logged].
    destruct keep; [| by intros [= <- _]].
    case_bool_decide; by intros [= <- _].
  - destruct (response e) as [r|]; [| by intros [= <- _]].
    destruct (_ || _); by intros [= <- _].
Qed.

Lemma iteration_recent st s evs :
  iteration remote cutoff st = (s, evs) →
  Forall (recent cutoff) (allNewAdvisories st) →
  match s with Again st' | Leave st' | Throw _ st' =>
    Forall (recent cutoff) (allNewAdvisories st')
  end.
Proof.
  unfold iteration.
  destruct (reply remote (requests st) (page st)) as [data|e].
  - case_bool_decide; [by intros [= <- _] |].
    destruct (scan cutoff data (allNewAdvisories st))
      as [[acc keep] logged] eqn:Hs.
    intros Hit Hacc. pose proof (scan_recent _ _ _ _ _ Hs Hacc) as Hacc'.
    destruct keep; [| by injection Hit as <- _].
    case_bool_decide; by injection Hit as <- _.
  - destruct (response e) as [r|]; [| by intros [= <- _]].
    destruct (_ || _); by intros [= <- _].
Qed.

(** A pass goes back to the test only below the ceiling, on the same page
    (after a rate-limit wait) or on the next one. *)
Lemma iteration_again_page st st' evs :
  iteration remote cutoff st = (Again st', evs) →
  (page st' = page st
   ∧ rate_limited (reply remote (requests st) (page st)) = true)
  ∨ (page st' = S (page st) ∧ (page st' <= MAX_PAGE)%nat
     ∧ rate_limited (reply remote (requests st) (page st)) = false).
Proof.
  unfold iteration, rate_limited, is_rate_limit.
  destruct (reply remote (requests st) (page st)) as [data|e].
  - case_bool_decide; [done |].
    destruct (scan cutoff data (allNewAdvisories st)) as [[acc keep] logged].
    destruct keep; [| done].
    case_bool_decide as Hmax; [done |].
    intros [= <- _]. right. simpl. split; [done | split; [lia | done]].
  - destruct (response e) as [r|]; [| done].
    destruct (_ || _); [| done]. intros [= <- _]. by left.
Qed.

End LoopFacts.

Section PassFacts.

Variable remote : Remote.
Variable cutoff : Z.

Implicit Types (st : LoopState) (evs : list Event).

(** [n] passes back to the test, then the rest of the loop. *)
Lemma fetch_loop_passes n fuel st st' evs :
  passes n remote cutoff st = Some (st', evs) →
  fetch_loop (n + fuel) remote cutoff st
  = match fetch_loop fuel remote cutoff st' with
    | Some (e, evs') => Some (e, evs ++ evs')
    | None => None
    end.
Proof.
  revert st evs. induction n as [|n IH]; intros st evs; simpl.
  - intros [= <- <-]. by destruct (fetch_loop fuel remote cutoff st) as [[]|].
  - destruct (iteration remote cutoff st) as [[st1| |] evs1]; try done.
    destruct (passes n remote cutoff st1) as [[st2 evs2]|] eqn:Hp; [| done].
    intros [= <- <-]. rewrite (IH _ _ Hp).
    destruct (fetch_loop fuel remote cutoff st2) as [[e evs']|]; [| done].
    by rewrite app_assoc.
Qed.

Lemma passes_requests n st st' evs :
  passes n remote cutoff st = Some (st', evs) →
  requests st' = (requests st + n)%nat.
Proof.
  revert st evs. induction n as [|n IH]; intros st evs; simpl.
  - intros [= <- _]. lia.
  - destruct (iteration remote cutoff st) as [[st1| |] evs1] eqn:Hit; try done.
    destruct (passes n remote cutoff st1) as [[st2 evs2]|] eqn:Hp; [| done].
    intros [= <- _]. rewrite (IH _ _ Hp).
    pose proof (iteration_requests _ _ _ _ _ Hit) as Hr. simpl in Hr. lia.
Qed.

Lemma passes_recent n st st' evs :
  passes n remote cutoff st = Some (st', evs) →
  Forall (recent cutoff) (allNewAdvisories st) →
  Forall (recent cutoff) (allNewAdvisories st').
Proof.
  revert st evs. induction n as [|n IH]; intros st evs; simpl.
  - by intros [= <- _].
  - destruct (iteration remote cutoff st) as [[st1| |] evs1] eqn:Hit; try done.
    destruct (passes n remote cutoff st1) as [[st2 evs2]|] eqn:Hp; [| done].
    intros [= <- _] Hacc. apply (IH _ _ Hp).
    apply (iteration_recent _ _ _ _ _ Hit Hacc).
Qed.

(** Every record the loop returns is within the window. *)
Lemma fetch_loop_recent fuel st e evs :
  fetch_loop fuel remote cutoff st = Some (e, evs) →
  Forall (recent cutoff) (allNewAdvisories st) →
  Forall (recent cutoff) (allNewAdvisories (end_state e)).
Proof.
  revert st evs. induction fuel as [|fuel IH]; intros st evs; simpl; [done |].
  destruct (iteration remote cutoff st) as [[st1|st1|x st1] evs1] eqn:Hit.
  - destruct (fetch_loop fuel remote cutoff st1) as [[e1 evs2]|] eqn:Hf;
      [| done].
    intros [= <- _] Hacc. apply (IH _ _ Hf).
    apply (iteration_recent _ _ _ _ _ Hit Hacc).
  - intros [= <- _] Hacc. apply (iteration_recent _ _ _ _ _ Hit Hacc).
  - intros [= <- _] Hacc. apply (iteration_recent _ _ _ _ _ Hit Hacc).
Qed.

(** A pass writes no file and asks for its own page, once. *)
Lemma iteration_events st s evs :
  iteration remote cutoff st = (s, evs) →
  writes evs = [] ∧ pages_requested evs = [page st].
Proof.
  unfold iteration.
  destruct (reply remote (requests st) (page st)) as [data|e].
  - case_bool_decide; [by intros [= _ <-] |].
    destruct (scan cutoff data (allNewAdvisories st))
      as [[acc keep] logged] eqn:Hs.
    destruct (scan_logged _ _ _ _ _ _ Hs) as (Hw & Hp & _).
    unfold writes, pages_requested in *.
    destruct keep; [case_bool_decide |]; intros [= _ <-]; csimpl;
      rewrite ?omap_app, ?Hw, ?Hp; done.
  - destruct (response e) as [r|]; [| by intros [= _ <-]].
    destruct (_ || _); by intros [= _ <-].
Qed.

Lemma fetch_loop_writes fuel st e evs :
  fetch_loop fuel remote cutoff st = Some (e, evs) → writes evs = [].
Proof.
  revert st e evs.
  induction fuel as [|fuel IH]; intros st e evs; simpl; [done |].
  destruct (iteration remote cutoff st) as [[st1|st1|x st1] evs1] eqn:Hit;
    destruct (iteration_events _ _ _ Hit) as [Hw _].
  - destruct (fetch_loop fuel remote cutoff st1) as [[e1 evs2]|] eqn:Hf;
      [| done].
    intros [= _ <-]. unfold writes in *. rewrite omap_app, Hw. simpl.
    apply (IH _ _ _ Hf).
  - by intros [= _ <-].
  - by intros [= _ <-].
Qed.

Lemma passes_writes n st st' evs :
  passes n remote cutoff st = Some (st', evs) → writes evs = [].
Proof.
  revert st st' evs. induction n as [|n IH]; intros st st' evs; simpl.
  - by intros [= _ <-].
  - destruct (iteration remote cutoff st) as [[st1| |] evs1] eqn:Hit; try done.
    destruct (iteration_events _ _ _ Hit) as [Hw _].
    destruct (passes n remote cutoff st1) as [[st2 evs2]|] eqn:Hp; [| done].
    intros [= _ <-]. unfold writes in *. rewrite omap_app, Hw. simpl.
    apply (IH _ _ _ Hp).
Qed.

End PassFacts.

(** ** The cutoff *)

Lemma descending_prefix_recent (cutoff : Z) (data1 data2 : list RawRecord)
    (r : RawRecord) :
  descending (data1 ++ r :: data2) →
  instant (published_at r) = cutoff →
  Forall (recent cutoff) (data1 ++ [r]).
Proof.
  intros Hd Hr. apply Forall_app. split.
  - apply Forall_lookup. intros i a Hi. unfold recent. rewrite <- Hr.
    apply (Hd i (length data1) a r).
    + by apply lookup_lt_Some in Hi.
    + by rewrite lookup_app_l by (by apply lookup_lt_Some in Hi).
    + by rewrite list_lookup_middle.
  - apply Forall_singleton. unfold recent. lia.
Qed.

(** C3. When the loop, after [n] passes, receives a page sorted newest first
    in which one record is published exactly at the cutoff and the next one
    is older, it accepts the records up to and including the one at the
    cutoff, drops the older one and all that follow, and ends on that pass:
    the request for this page is the last one. Every record it returns is
    published at or after the cutoff. *)
Theorem C3_cutoff_boundary (remote : Remote) (cutoff : Z) (n fuel : nat)
    (st : LoopState) (evs : list Event)
    (before after : list RawRecord) (rN rN1 : RawRecord) :
  passes n remote cutoff initial_state = Some (st, evs) →
  reply remote (requests st) (page st) = Resolved (before ++ rN :: rN1 :: after) →
  descending (before ++ rN :: rN1 :: after) →
  instant (published_at rN) = cutoff →
  instant (published_at rN1) < cutoff →
  fetch_loop (n + S fuel) remote cutoff initial_state
  = Some (Fetched {| page := page st;
                     allNewAdvisories := allNewAdvisories st ++ before ++ [rN];
                     requests := S (requests st) |},
          evs ++ asked st
              ++ [ELog (LOlderThanCutoff (iso (published_at rN1)))])
  ∧ Forall (fun r => cutoff <= instant (published_at r))
      (allNewAdvisories st ++ before ++ [rN]).
Proof.
  intros Hp Hreply Hd HrN HrN1.
  assert (Forall (recent cutoff) (before ++ [rN])) as Hrecent.
  { apply (descending_prefix_recent cutoff before (rN1 :: after) rN Hd HrN). }
  split.
  - rewrite (fetch_loop_passes _ _ _ _ _ _ _ Hp). simpl.
    unfold iteration. rewrite Hreply.
    rewrite bool_decide_eq_false_2
      by (rewrite length_app; simpl; lia).
    replace (before ++ rN :: rN1 :: after)
      with ((before ++ [rN]) ++ rN1 :: after) by (by rewrite <- app_assoc).
    by rewrite (scan_stops cutoff _ _ _ _ Hrecent HrN1).
  - apply Forall_app. split; [| done].
    apply (passes_recent _ _ _ _ _ _ Hp). constructor.
Qed.

Lemma C3_cutoff_boundary_witness :
  fetch_loop (0 + 1) Sample.remote Sample.cutoff initial_state
  = Some (Fetched {| page := 1;
                     allNewAdvisories := [] ++ [Sample.newer] ++ [Sample.at_cutoff];
                     requests := 1 |},
          [] ++ asked initial_state
             ++ [ELog (LOlderThanCutoff "2023-11-14T22:13:19Z")])
  ∧ Forall (fun r => Sample.cutoff <= instant (published_at r))
      ([] ++ [Sample.newer] ++ [Sample.at_cutoff]).
Proof.
  apply (C3_cutoff_boundary Sample.remote Sample.cutoff 0 0 initial_state []
           [Sample.newer] [] Sample.at_cutoff Sample.older).
  - reflexivity.
  - reflexivity.
  - intros i j a b Hij Ha Hb.
    destruct i as [|[|[|i]]]; destruct j as [|[|[|j]]];
      simpl in Ha, Hb; try lia; try discriminate;
      injection Ha as <-; injection Hb as <-; vm_compute; discriminate.
  - reflexivity.
  - reflexivity.
Defined.

(** ** Whole runs *)

(** The identity key of a transformed record is the advisory's [ghsa_id]. *)
Lemma transform_sourceId (advisory : RawRecord) :
  Normalized.sourceId (transform advisory) = ghsa_id advisory.
Proof. unfold transform. by destruct (vulnerabilities advisory) as [[|]|]. Qed.

Section RunFacts.

Variable JSON_parse : string -> option jsval.
Variable JSON_stringify : jsval -> string.

Implicit Types (fs : Files) (clock : Clock) (st : LoopState).

#[local] Abbreviation run := (run JSON_parse JSON_stringify).
#[local] Abbreviation persist := (persist JSON_parse JSON_stringify).
#[local] Abbreviation load := (load JSON_parse).

Lemma ensure_dir_data_file fs : data_file (ensure_dir fs).1 = data_file fs.
Proof. unfold ensure_dir. by destruct (dir_exists fs). Qed.

Lemma ensure_dir_writes fs : writes (ensure_dir fs).2 = [].
Proof. unfold ensure_dir. by destruct (dir_exists fs). Qed.

Lemma load_writes fs t : writes (load fs t).2 = [].
Proof.
  unfold load. destruct (data_file fs) as [c|]; [| done].
  destruct (JSON_parse c) as [v|]; [| done]. by destruct (isArray v).
Qed.

Lemma run_fetched fuel remote clock fs st evs :
  fetch_loop fuel remote (oneYearAgo clock) initial_state
    = Some (Fetched st, evs) →
  run fuel remote clock fs = Some (persist clock fs st (preamble clock ++ evs)).
Proof. intros H. unfold run. by rewrite H. Qed.

Lemma run_failed fuel remote clock fs st evs e :
  fetch_loop fuel remote (oneYearAgo clock) initial_state
    = Some (Failed e st, evs) →
  run fuel remote clock fs
  = Some (crash (Axios e) fs (preamble clock ++ evs)).
Proof. intros H. unfold run. by rewrite H. Qed.

Lemma writes_app evs1 evs2 : writes (evs1 ++ evs2) = writes evs1 ++ writes evs2.
Proof. apply omap_app. Qed.

(** What [persist] does when the merge returns. *)
Lemma persist_merged clock fs st before existingData' addedCount :
  merge (load (ensure_dir fs).1 (generatedAt_default clock)).1
        (transform <$> allNewAdvisories st)
    = Ok (existingData', addedCount) →
  writes before = [] →
  let text :=
    JSON_stringify
      (set_prop existingData' "generatedAt" (VStr (generatedAt_commit clock))) in
  let fin := persist clock fs st before in
  exit_code fin = 0
  ∧ writes (events fin) = (if bool_decide (0 < addedCount)%nat then [text] else [])
  ∧ data_file (files fin)
    = (if bool_decide (0 < addedCount)%nat then Some text else data_file fs).
Proof.
  intros Hm Hb. unfold persist.
  pose proof (ensure_dir_data_file fs) as Hdf.
  pose proof (ensure_dir_writes fs) as Hw1.
  destruct (ensure_dir fs) as [fs1 made]. cbn [fst snd] in *.
  pose proof (load_writes fs1 (generatedAt_default clock)) as Hw2.
  destruct (load fs1 (generatedAt_default clock)) as [existingData noted].
  cbn [fst snd] in *. rewrite Hm. unfold commit.
  case_bool_decide; cbn [exit_code events files data_file];
    rewrite !writes_app, Hb, Hw1, Hw2; done.
Qed.

(** What [persist] does when the merge raises. *)
Lemma persist_raised clock fs st before e :
  merge (load (ensure_dir fs).1 (generatedAt_default clock)).1
        (transform <$> allNewAdvisories st)
    = Raise e →
  writes before = [] →
  let fin := persist clock fs st before in
  exit_code fin = 1
  ∧ writes (events fin) = []
  ∧ data_file (files fin) = data_file fs
  ∧ ∃ tr, events fin = tr ++ [EError (LFailure e); EExit 1].
Proof.
  intros Hm Hb. unfold persist.
  pose proof (ensure_dir_data_file fs) as Hdf.
  pose proof (ensure_dir_writes fs) as Hw1.
  destruct (ensure_dir fs) as [fs1 made]. cbn [fst snd] in *.
  pose proof (load_writes fs1 (generatedAt_default clock)) as Hw2.
  destruct (load fs1 (generatedAt_default clock)) as [existingData noted].
  cbn [fst snd] in *. rewrite Hm. unfold crash.
  cbn [exit_code events files data_file].
  rewrite !writes_app, Hb, Hw1, Hw2. eauto.
Qed.

(** C2. A run whose merge adds no record does not write the snapshot file:
    no call of [writeFileSync], the content of the file as before. The file
    is written, once, with [generatedAt] set at commit time, exactly when
    the merge added a record; and the merge adds none exactly when the
    identity key of every fetched record is already a key of the loaded
    snapshot. *)
Theorem C2_write_only_when_added (fuel : nat) (remote : Remote) (clock : Clock)
    (fs : Files) (st : LoopState) (evs : list Event)
    (existingData' : jsval) (addedCount : nat) :
  fetch_loop fuel remote (oneYearAgo clock) initial_state
    = Some (Fetched st, evs) →
  merge (load (ensure_dir fs).1 (generatedAt_default clock)).1
        (transform <$> allNewAdvisories st)
    = Ok (existingData', addedCount) →
  ∃ (fin : Finished) (keys : list jsval),
    run fuel remote clock fs = Some fin
    ∧ exit_code fin = 0
    ∧ writes (events fin)
      = (if bool_decide (0 < addedCount)%nat
         then [JSON_stringify
                 (set_prop existingData' "generatedAt"
                    (VStr (generatedAt_commit clock)))]
         else [])
    ∧ data_file (files fin)
      = (if bool_decide (0 < addedCount)%nat
         then Some (JSON_stringify
                      (set_prop existingData' "generatedAt"
                         (VStr (generatedAt_commit clock))))
         else data_file fs)
    ∧ existing_keys (load (ensure_dir fs).1 (generatedAt_default clock)).1
      = Ok keys
    ∧ (addedCount = 0%nat
       ↔ ∀ r, r ∈ allNewAdvisories st → VStr (ghsa_id r) ∈ keys).
Proof.
  intros Hloop Hm.
  destruct (merge_Ok _ _ _ _ Hm) as [keys Hk].
  exists (persist clock fs st (preamble clock ++ evs)), keys.
  split; [by apply run_fetched |].
  destruct (persist_merged clock fs st (preamble clock ++ evs) _ _ Hm)
    as (Hexit & Hw & Hf).
  { rewrite writes_app. by rewrite (fetch_loop_writes _ _ _ _ _ _ Hloop). }
  split; [done |]. split; [done |]. split; [done |]. split; [done |].
  destruct (existing_keys_Ok _ _ Hk) as (fields & items & Hd & Ha & Hs).
  rewrite Hd in Hm. rewrite (merge_VObj _ _ _ _ Ha Hs) in Hm.
  injection Hm as _ <-.
  rewrite length_zero_iff_nil, first_occurrences_nil. split.
  - intros H r Hr. apply elem_of_string_keys.
    rewrite <- transform_sourceId.
    apply (H (transform r)). by apply list_elem_of_fmap_2.
  - intros H r' (r & -> & Hr)%list_elem_of_fmap.
    apply elem_of_string_keys. rewrite transform_sourceId. by apply H.
Qed.

Lemma load_legacy fs content legacy t :
  data_file fs = Some content →
  JSON_parse content = Some (VArr legacy) →
  load (ensure_dir fs).1 t = (empty_snapshot t, [ELog LOldFormat]).
Proof.
  intros Hf Hp. unfold load. by rewrite ensure_dir_data_file, Hf, Hp.
Qed.

(** C6, as the code has it. When the snapshot file holds a bare list, the
    run ends with exit code 0 and the list is not merged: the run starts from
    the empty snapshot. If at least one record was fetched, the file then
    holds the versioned snapshot of exactly the fetched records, transformed,
    one per identity key; if none was fetched, the file is left as it was. *)
Theorem C6_legacy_list_discarded (fuel : nat) (remote : Remote) (clock : Clock)
    (fs : Files) (st : LoopState) (evs : list Event)
    (content : string) (legacy : list jsval) :
  fetch_loop fuel remote (oneYearAgo clock) initial_state
    = Some (Fetched st, evs) →
  data_file fs = Some content →
  JSON_parse content = Some (VArr legacy) →
  ∃ fin : Finished,
    run fuel remote clock fs = Some fin
    ∧ exit_code fin = 0
    ∧ load (ensure_dir fs).1 (generatedAt_default clock)
      = (empty_snapshot (generatedAt_default clock), [ELog LOldFormat])
    ∧ data_file (files fin)
      = match allNewAdvisories st with
        | [] => Some content
        | _ :: _ =>
            Some (JSON_stringify
                    (snapshot_of (generatedAt_commit clock)
                       (first_occurrences []
                          (transform <$> allNewAdvisories st))))
        end.
Proof.
  intros Hloop Hf Hp.
  pose proof (load_legacy fs content legacy (generatedAt_default clock) Hf Hp)
    as Hload.
  exists (persist clock fs st (preamble clock ++ evs)).
  split; [by apply run_fetched |].
  destruct (persist_merged clock fs st (preamble clock ++ evs)
              (VObj (replace_field "advisories"
                       (VArr ([] ++ (to_js <$> first_occurrences (string_keys [])
                                        (transform <$> allNewAdvisories st))))
                       [ ("schemaVersion", VStr "1.0");
                         ("generatedAt", VStr (generatedAt_default clock));
                         ("advisories", VArr []) ]))
              (length (first_occurrences (string_keys [])
                         (transform <$> allNewAdvisories st))))
    as (Hexit & _ & Hfile).
  { rewrite Hload. by apply merge_VObj. }
  { rewrite writes_app. by rewrite (fetch_loop_writes _ _ _ _ _ _ Hloop). }
  split; [done |]. split; [done |].
  rewrite Hfile. destruct (allNewAdvisories st) as [|r rest]; [by rewrite Hf |].
  done.
Qed.

(** C9. When a request is answered by a failure that is not a 429 or 403
    (another status, or no response at all), the run ends there: it logs the
    error, exits with code 1, sends no further request, and never writes the
    snapshot file, which is as it was before the run. *)
Theorem C9_fatal_failure_aborts (n fuel : nat) (remote : Remote) (clock : Clock)
    (fs : Files) (st : LoopState) (evs : list Event) (e : AxiosError) :
  passes n remote (oneYearAgo clock) initial_state = Some (st, evs) →
  reply remote (requests st) (page st) = Rejected e →
  is_rate_limit e = false →
  run (n + S fuel) remote clock fs
  = Some {| exit_code := 1;
            files := fs;
            events := preamble clock ++ (evs ++ asked st)
                        ++ [EError (LFailure (Axios e)); EExit 1] |}
  ∧ writes (preamble clock ++ (evs ++ asked st)
              ++ [EError (LFailure (Axios e)); EExit 1]) = [].
Proof.
  intros Hp Hreply Hfatal.
  assert (iteration remote (oneYearAgo clock) st
          = (Throw e (with_requests (S (requests st)) st), asked st)) as Hit.
  { unfold iteration. rewrite Hreply. unfold is_rate_limit in Hfatal.
    destruct (response e) as [r|]; [| done]. by rewrite Hfatal. }
  split.
  - erewrite run_failed; [done |].
    rewrite (fetch_loop_passes _ _ _ _ _ _ _ Hp). simpl. by rewrite Hit.
  - rewrite !writes_app, (passes_writes _ _ _ _ _ _ Hp). done.
Qed.

Lemma has_advisories_list_false parsed :
  has_advisories_list parsed = false →
  ∃ k, existing_keys parsed = Raise (TypeError k).
Proof.
  unfold has_advisories_list, existing_keys.
  destruct parsed as [| | | | | |fields]; simpl; eauto.
  destruct (assoc "advisories" fields) as [[| | | | | |]|]; simpl; eauto.
  done.
Qed.

(** C10. A snapshot file whose content parses to a value that is neither an
    array nor an object with a list under [advisories] is taken as it is,
    without any check of its shape; reading the identity keys then raises a
    [TypeError], and the run logs it and exits with code 1, the file left as
    it was: there is no fall-back to the empty snapshot. *)
Theorem C10_unchecked_snapshot_aborts (fuel : nat) (remote : Remote)
    (clock : Clock) (fs : Files) (st : LoopState) (evs : list Event)
    (content : string) (parsed : jsval) :
  fetch_loop fuel remote (oneYearAgo clock) initial_state
    = Some (Fetched st, evs) →
  data_file fs = Some content →
  JSON_parse content = Some parsed →
  isArray parsed = false →
  has_advisories_list parsed = false →
  load (ensure_dir fs).1 (generatedAt_default clock) = (parsed, [])
  ∧ ∃ (k : TypeErrorKind) (fin : Finished) (tr : list Event),
      merge parsed (transform <$> allNewAdvisories st) = Raise (TypeError k)
      ∧ run fuel remote clock fs = Some fin
      ∧ exit_code fin = 1
      ∧ events fin = tr ++ [EError (LFailure (TypeError k)); EExit 1]
      ∧ writes (events fin) = []
      ∧ data_file (files fin) = Some content.
Proof.
  intros Hloop Hf Hp Harr Hshape.
  assert (load (ensure_dir fs).1 (generatedAt_default clock) = (parsed, []))
    as Hload.
  { unfold load. by rewrite ensure_dir_data_file, Hf, Hp, Harr. }
  split; [done |].
  destruct (has_advisories_list_false _ Hshape) as [k Hk].
  pose proof (merge_Raise _ (transform <$> allNewAdvisories st) _ Hk) as Hm.
  destruct (persist_raised clock fs st (preamble clock ++ evs) (TypeError k))
    as (Hexit & Hw & Hfile & tr & Htr).
  { by rewrite Hload. }
  { rewrite writes_app. by rewrite (fetch_loop_writes _ _ _ _ _ _ Hloop). }
  exists k, (persist clock fs st (preamble clock ++ evs)), tr.
  split; [done |]. split; [by apply run_fetched |].
  split; [done |]. split; [done |]. split; [done |]. by rewrite Hfile.
Qed.

End RunFacts.

(** ** The page ceiling and termination *)

(** However the endpoint replies, the loop stays on pages 1 to 500. *)
Lemma passes_pages (remote : Remote) (cutoff : Z) (n : nat)
    (st st' : LoopState) (evs : list Event) :
  passes n remote cutoff st = Some (st', evs) →
  (page st <= MAX_PAGE)%nat →
  (page st <= page st' <= MAX_PAGE)%nat
  ∧ Forall (fun p => (page st <= p <= MAX_PAGE)%nat) (pages_requested evs).
Proof.
  revert st st' evs. induction n as [|n IH]; intros st st' evs; simpl.
  - intros [= <- <-] Hle. split; [lia | constructor].
  - destruct (iteration remote cutoff st) as [[st1| |] evs1] eqn:Hit; try done.
    destruct (iteration_events _ _ _ _ _ Hit) as [_ Hpages].
    destruct (passes n remote cutoff st1) as [[st2 evs2]|] eqn:Hp; [| done].
    intros [= <- <-] Hle.
    assert (page st <= page st1 <= MAX_PAGE)%nat as Hst1.
    { destruct (iteration_again_page _ _ _ _ _ Hit) as [[Heq _]|(Heq & ? & _)];
        lia. }
    destruct (IH _ _ _ Hp) as [Hpage Hall]; [lia |].
    split; [lia |].
    unfold pages_requested in *. rewrite omap_app, Hpages. simpl.
    constructor; [lia |].
    eapply Forall_impl; [exact Hall |]. simpl. intros p ?. lia.
Qed.

Section Ceiling.

Variable remote : Remote.
Variable cutoff : Z.

(** No request from the [k]-th on is answered with 429 or 403. *)
Variable k : nat.
Hypothesis rate_limit_ends :
  ∀ m p, (k <= m)%nat → rate_limited (reply remote m p) = false.

Lemma fetch_loop_terminates (fuel : nat) (st : LoopState) :
  (1 <= page st <= MAX_PAGE)%nat →
  ((k - requests st) + (S MAX_PAGE - page st) <= fuel)%nat →
  ∃ e evs,
    fetch_loop fuel remote cutoff st = Some (e, evs)
    ∧ Forall (fun p => (page st <= p <= MAX_PAGE)%nat) (pages_requested evs)
    ∧ (length (pages_requested evs) <= fuel)%nat.
Proof.
  revert st. induction fuel as [|fuel IH]; intros st Hpage Hfuel.
  { unfold MAX_PAGE in *. lia. }
  simpl.
  destruct (iteration remote cutoff st) as [[st1|st1|x st1] evs1] eqn:Hit;
    destruct (iteration_events _ _ _ _ _ Hit) as [_ Hpages].
  - pose proof (iteration_requests _ _ _ _ _ Hit) as Hreq. simpl in Hreq.
    destruct (IH st1) as (e & evs & Hloop & Hall & Hlen).
    + destruct (iteration_again_page _ _ _ _ _ Hit) as [[Heq _]|(Heq & ? & _)];
        lia.
    + destruct (iteration_again_page _ _ _ _ _ Hit) as [[Hsame Hlim]|(Hnext & ? & _)].
      * assert (requests st < k)%nat; [| lia].
        destruct (decide (requests st < k)%nat) as [|Hge]; [done |].
        rewrite rate_limit_ends in Hlim by lia. done.
      * lia.
    + rewrite Hloop. exists e, (evs1 ++ evs). split; [done |].
      unfold pages_requested in *. rewrite omap_app, Hpages. simpl.
      split; [| lia]. constructor; [lia |].
      eapply Forall_impl; [exact Hall |]. simpl. intros p Hp.
      destruct (iteration_again_page _ _ _ _ _ Hit) as [[Heq _]|(Heq & ? & _)];
        lia.
  - exists (Fetched st1), evs1. rewrite Hpages. simpl.
    split; [done |]. split; [| lia]. constructor; [lia | constructor].
  - exists (Failed x st1), evs1. rewrite Hpages. simpl.
    split; [done |]. split; [| lia]. constructor; [lia | constructor].
Qed.

End Ceiling.

(** C8, as the code has it. However the endpoint replies, the loop only asks
    for page numbers 1 to 500 and never stands on a later page. It ends
    provided the rate limiting ends: if no request from the [k]-th on is
    answered with 429 or 403, the loop is over after at most [k + 500]
    passes, each of which sent one request. *)
Theorem C8_page_ceiling (remote : Remote) (cutoff : Z) (k : nat) :
  (∀ n, match passes n remote cutoff initial_state with
        | Some (st, evs) =>
            (1 <= page st <= MAX_PAGE)%nat
            ∧ Forall (fun p => (1 <= p <= MAX_PAGE)%nat) (pages_requested evs)
        | None => True
        end)
  ∧ ((∀ m p, (k <= m)%nat → rate_limited (reply remote m p) = false) →
     ∃ (e : LoopEnd) (evs : list Event),
       fetch_loop (k + MAX_PAGE) remote cutoff initial_state = Some (e, evs)
       ∧ Forall (fun p => (1 <= p <= MAX_PAGE)%nat) (pages_requested evs)
       ∧ (length (pages_requested evs) <= k + MAX_PAGE)%nat).
Proof.
  split.
  - intros n.
    destruct (passes n remote cutoff initial_state) as [[st evs]|] eqn:Hp;
      [| done].
    apply (passes_pages _ _ _ _ _ _ Hp). unfold MAX_PAGE. simpl. lia.
  - intros Hends.
    apply (fetch_loop_terminates remote cutoff k Hends (k + MAX_PAGE)
             initial_state).
    + unfold MAX_PAGE. simpl. lia.
    + unfold MAX_PAGE. simpl. lia.
Qed.

Lemma C8_page_ceiling_witness :
  ∃ (e : LoopEnd) (evs : list Event),
    fetch_loop (0 + MAX_PAGE) Sample.two_pages Sample.cutoff initial_state
      = Some (e, evs)
    ∧ Forall (fun p => (1 <= p <= MAX_PAGE)%nat) (pages_requested evs)
    ∧ (length (pages_requested evs) <= 0 + MAX_PAGE)%nat.
Proof.
  apply (proj2 (C8_page_ceiling Sample.two_pages Sample.cutoff 0)).
  intros m p _. simpl. by destruct p as [|[|[|p]]].
Defined.

Lemma always_429_never_ends (fuel : nat) (st : LoopState) :
  fetch_loop fuel Sample.always_429 Sample.cutoff st = None.
Proof.
  revert st. induction fuel as [|fuel IH]; intros st; [done |].
  simpl. unfold iteration. simpl. by rewrite IH.
Qed.

(** Under endless rate limiting the loop never ends, whatever the ceiling. *)
Lemma C8_counterexample :
  rate_limited (reply Sample.always_429 0 1) = true
  ∧ ¬ ∃ fuel, is_Some (fetch_loop fuel Sample.always_429 Sample.cutoff
                         initial_state).
Proof.
  split; [done |]. intros [fuel Hsome].
  rewrite always_429_never_ends in Hsome. by destruct Hsome.
Qed.

(** ** A rate-limit rejection in the middle of a run *)

Lemma iteration_ext (r1 r2 : Remote) (cutoff : Z) (st : LoopState) :
  reply r1 (requests st) (page st) = reply r2 (requests st) (page st) →
  Date_now r1 (requests st) = Date_now r2 (requests st) →
  iteration r1 cutoff st = iteration r2 cutoff st.
Proof. unfold iteration. by intros -> ->. Qed.

(** A pass depends on the number of requests sent only through the oracle. *)
Lemma iteration_oracle (r1 r2 : Remote) (cutoff : Z) (st : LoopState) (m : nat) :
  reply r1 m (page st) = reply r2 (requests st) (page st) →
  Date_now r1 m = Date_now r2 (requests st) →
  iteration r1 cutoff (with_requests m st)
  = (step_with_requests (S m) (iteration r2 cutoff st).1,
     (iteration r2 cutoff st).2).
Proof.
  unfold iteration, with_requests. simpl. intros -> ->.
  destruct (reply r2 (requests st) (page st)) as [data|e].
  - case_bool_decide; [done |].
    destruct (scan cutoff data (allNewAdvisories st)) as [[acc keep] logged].
    destruct keep; [| done]. by case_bool_decide.
  - destruct (response e) as [r|]; [| done]. by destruct (_ || _).
Qed.

Section InducedFailure.

Variable remote : Remote.
Variable cutoff : Z.
Variable k : nat.
Variable e : AxiosError.
Variable now_ms : Z.

#[local] Abbreviation faulty := (induce_failure k e now_ms remote).

(** Up to the rejected request the two runs are the same. *)
Lemma passes_before_failure (n : nat) (st st1 : LoopState) (evs : list Event) :
  passes n remote cutoff st = Some (st1, evs) →
  (requests st + n <= k)%nat →
  passes n faulty cutoff st = Some (st1, evs).
Proof.
  revert st st1 evs. induction n as [|n IH]; intros st st1 evs; [done |].
  simpl. intros Hp Hk.
  rewrite (iteration_ext faulty remote).
  2, 3: simpl; by rewrite bool_decide_eq_true_2 by lia.
  destruct (iteration remote cutoff st) as [[st2| |] evs2] eqn:Hit; try done.
  pose proof (iteration_requests _ _ _ _ _ Hit) as Hreq. simpl in Hreq.
  destruct (passes n remote cutoff st2) as [[st3 evs3]|] eqn:Hp2; [| done].
  rewrite (IH _ _ _ Hp2) by lia. done.
Qed.

(** After it, the faulty run does what the other one does, one request
    later. *)
Lemma fetch_loop_after_failure (fuel : nat) (st : LoopState) :
  (k <= requests st)%nat →
  fetch_loop fuel faulty cutoff (with_requests (S (requests st)) st)
  = match fetch_loop fuel remote cutoff st with
    | Some (x, evs) => Some (one_more_request x, evs)
    | None => None
    end.
Proof.
  revert st. induction fuel as [|fuel IH]; intros st Hk; [done |].
  simpl. rewrite (iteration_oracle faulty remote).
  2, 3: simpl; rewrite bool_decide_eq_false_2 by lia;
        by rewrite bool_decide_eq_false_2 by lia.
  destruct (iteration remote cutoff st) as [[st1|st1|x st1] evs1] eqn:Hit;
    pose proof (iteration_requests _ _ _ _ _ Hit) as Hreq; simpl in Hreq;
    simpl; rewrite <- ?Hreq; [| done | done].
  rewrite IH by lia.
  by destruct (fetch_loop fuel remote cutoff st1) as [[x evs]|].
Qed.

(** The rejected request: a wait, then the same page again. *)
Lemma iteration_at_failure (st : LoopState) (r : ErrorResponse) :
  requests st = k →
  response e = Some r →
  is_rate_limit e = true →
  iteration faulty cutoff st
  = (Again (with_requests (S (requests st)) st),
     asked st ++ rate_limit_wait r now_ms).
Proof.
  intros Hk Hr Hlim. unfold iteration. simpl.
  rewrite bool_decide_eq_false_2 by lia.
  rewrite bool_decide_eq_true_2 by done.
  unfold is_rate_limit in Hlim. rewrite Hr in *. by rewrite Hlim.
Qed.

(** One rate-limit rejection of the [k]-th request costs one wait and one
    more request for the same page, and changes nothing else. *)
Lemma induced_failure_run (fuel : nat) (st : LoopState) (r : ErrorResponse)
    (evs0 evs1 : list Event) (x : LoopEnd) :
  response e = Some r →
  is_rate_limit e = true →
  passes k remote cutoff initial_state = Some (st, evs0) →
  fetch_loop fuel remote cutoff st = Some (x, evs1) →
  fetch_loop (k + S fuel) faulty cutoff initial_state
  = Some (one_more_request x,
          evs0 ++ (asked st ++ rate_limit_wait r now_ms) ++ evs1).
Proof.
  intros Hr Hlim Hp Hloop.
  pose proof (passes_requests _ _ _ _ _ _ Hp) as Hreq. simpl in Hreq.
  rewrite (fetch_loop_passes faulty cutoff k (S fuel) initial_state st evs0).
  2: { apply passes_before_failure; [done | simpl; lia]. }
  simpl. rewrite (iteration_at_failure st r Hreq Hr Hlim).
  rewrite fetch_loop_after_failure by lia. by rewrite Hloop.
Qed.

End InducedFailure.

Lemma one_more_request_records (x : LoopEnd) :
  allNewAdvisories (end_state (one_more_request x))
  = allNewAdvisories (end_state x).
Proof. by destruct x. Qed.

(** ** The rate-limit wait *)

(** The wait is a whole number of seconds strictly between 0 and 3600. *)
Lemma waitTime_range (r : jsnum) : ∃ z, waitTime r = Num z ∧ 0 < z < 3600.
Proof.
  unfold waitTime. destruct r as [|z]; simpl; [by exists 60 |].
  do 2 case_bool_decide; simpl;
    first [exists z; split; [done | lia] | by exists 60].
Qed.

(** Without an [x-ratelimit-reset] header the wait is 60 seconds, whatever
    the [retry-after] header says: its value is tested, never used. *)
Lemma retry_after_value_unused (h : gmap string string) (now_ms : Z) :
  h !! "x-ratelimit-reset" = None →
  waitTime (retryAfter h now_ms) = Num 60.
Proof.
  intros Hreset. unfold retryAfter. rewrite Hreset.
  by destruct (truthy_header (h !! "retry-after") || truthy_header None).
Qed.

(** With an [x-ratelimit-reset] header of [reset] seconds, the wait is the
    time left until then when that is between 1 and 3599 seconds. *)
Lemma wait_until_reset (h : gmap string string) (text : string) (now_ms reset : Z) :
  h !! "x-ratelimit-reset" = Some text →
  text ≠ "" →
  ParseInt.of_string text = Num reset →
  0 < reset - now_ms / 1000 < 3600 →
  waitTime (retryAfter h now_ms) = Num (reset - now_ms / 1000).
Proof.
  intros Hreset Htext Hparse Hrange. unfold retryAfter. rewrite Hreset.
  replace (truthy_header (Some text)) with true
    by (simpl; by rewrite bool_decide_eq_false_2).
  rewrite orb_true_r. simpl. rewrite Hparse. unfold waitTime. simpl.
  by rewrite !bool_decide_eq_true_2 by lia.
Qed.

Lemma sleeps_app (evs1 evs2 : list Event) :
  sleeps (evs1 ++ evs2) = sleeps evs1 ++ sleeps evs2.
Proof. apply omap_app. Qed.

(** The first request of what is left of the loop is for the page the loop
    stands on. *)
Lemma fetch_loop_first_page (remote : Remote) (cutoff : Z) (fuel : nat)
    (st : LoopState) (x : LoopEnd) (evs : list Event) :
  fetch_loop fuel remote cutoff st = Some (x, evs) →
  ∃ later, pages_requested evs = page st :: later.
Proof.
  destruct fuel as [|fuel]; [done |]. simpl.
  destruct (iteration remote cutoff st) as [[st1|st1|y st1] evs1] eqn:Hit;
    destruct (iteration_events _ _ _ _ _ Hit) as [_ Hpages].
  - destruct (fetch_loop fuel remote cutoff st1) as [[x1 evs2]|]; [| done].
    intros [= _ <-]. exists (pages_requested evs2).
    unfold pages_requested in *. by rewrite omap_app, Hpages.
  - intros [= _ <-]. by exists [].
  - intros [= _ <-]. by exists [].
Qed.

(** C1, as the code has it. Let the [k]-th request of a run be rejected with
    status 429 and the single header [retry-after: 5]. The run then sleeps
    exactly once more than the run without the rejection, asks for the same
    page again and returns the same records; but the additional sleep lasts
    60 seconds, not 5. *)
Theorem C1_retry_after_5_waits_60_seconds (remote : Remote) (cutoff : Z)
    (k fuel : nat) (now_ms : Z) (msg : string) (st : LoopState)
    (evs0 evs1 : list Event) (x : LoopEnd) :
  passes k remote cutoff initial_state = Some (st, evs0) →
  fetch_loop fuel remote cutoff st = Some (x, evs1) →
  fetch_loop (k + fuel) remote cutoff initial_state = Some (x, evs0 ++ evs1)
  ∧ fetch_loop (k + S fuel)
      (induce_failure k
         {| message := msg;
            response := Some {| status := 429;
                                headers := {[ "retry-after" := "5" ]} |} |}
         now_ms remote)
      cutoff initial_state
    = Some (one_more_request x,
            evs0 ++ (asked st ++ [ELog (LRateLimited 429 (Num 60));
                                  ESleep (Num 60000)]) ++ evs1)
  ∧ allNewAdvisories (end_state (one_more_request x))
    = allNewAdvisories (end_state x)
  ∧ sleeps (evs0 ++ (asked st ++ [ELog (LRateLimited 429 (Num 60));
                                  ESleep (Num 60000)]) ++ evs1)
    = sleeps evs0 ++ Num 60000 :: sleeps evs1
  ∧ ∃ later, pages_requested evs1 = page st :: later.
Proof.
  intros Hp Hloop. split; [| split; [| split; [| split]]].
  - by rewrite (fetch_loop_passes _ _ _ _ _ _ _ Hp), Hloop.
  - set (r := {| status := 429; headers := {[ "retry-after" := "5" ]} |}).
    rewrite (induced_failure_run remote cutoff k
               {| message := msg; response := Some r |} now_ms fuel st r
               evs0 evs1 x eq_refl eq_refl Hp Hloop).
    unfold rate_limit_wait. simpl status.
    by rewrite retry_after_value_unused by done.
  - apply one_more_request_records.
  - by rewrite !sleeps_app.
  - apply (fetch_loop_first_page _ _ _ _ _ _ Hloop).
Qed.

Lemma C1_retry_after_5_waits_60_seconds_witness :
  fetch_loop (1 + 2) Sample.two_pages Sample.cutoff initial_state
  = Some (Fetched {| page := 3;
                     allNewAdvisories := [Sample.newer; Sample.at_cutoff];
                     requests := 3 |},
          [ELog (LPage 1); EGet 1; ESleep (Num 1000)]
          ++ [ELog (LPage 2); EGet 2; ESleep (Num 1000);
              ELog (LPage 3); EGet 3; ELog LNoMoreData])
  ∧ fetch_loop (1 + 3)
      (induce_failure 1 Sample.retry_after_5 1731622400000 Sample.two_pages)
      Sample.cutoff initial_state
    = Some (Fetched {| page := 3;
                       allNewAdvisories := [Sample.newer; Sample.at_cutoff];
                       requests := 4 |},
            [ELog (LPage 1); EGet 1; ESleep (Num 1000)]
            ++ ([ELog (LPage 2); EGet 2]
                ++ [ELog (LRateLimited 429 (Num 60)); ESleep (Num 60000)])
            ++ [ELog (LPage 2); EGet 2; ESleep (Num 1000);
                ELog (LPage 3); EGet 3; ELog LNoMoreData])
  ∧ [Sample.newer; Sample.at_cutoff] = [Sample.newer; Sample.at_cutoff]
  ∧ sleeps ([ELog (LPage 1); EGet 1; ESleep (Num 1000)]
            ++ ([ELog (LPage 2); EGet 2]
                ++ [ELog (LRateLimited 429 (Num 60)); ESleep (Num 60000)])
            ++ [ELog (LPage 2); EGet 2; ESleep (Num 1000);
                ELog (LPage 3); EGet 3; ELog LNoMoreData])
    = [Num 1000] ++ Num 60000 :: [Num 1000]
  ∧ ∃ later,
      pages_requested [ELog (LPage 2); EGet 2; ESleep (Num 1000);
                       ELog (LPage 3); EGet 3; ELog LNoMoreData]
      = 2%nat :: later.
Proof.
  apply (C1_retry_after_5_waits_60_seconds Sample.two_pages Sample.cutoff 1 2
           1731622400000 "Request failed"
           {| page := 2; allNewAdvisories := [Sample.newer]; requests := 1 |}
           [ELog (LPage 1); EGet 1; ESleep (Num 1000)]
           [ELog (LPage 2); EGet 2; ESleep (Num 1000);
            ELog (LPage 3); EGet 3; ELog LNoMoreData]
           (Fetched {| page := 3;
                       allNewAdvisories := [Sample.newer; Sample.at_cutoff];
                       requests := 3 |})).
  - reflexivity.
  - reflexivity.
Defined.

(** ** The runs on the sample data *)

Lemma C2_write_only_when_added_witness :
  ∃ (fin : Finished) (keys : list jsval),
    run Sample.parse Sample.stringify 2 Sample.known_only Sample.clock
        (Sample.with_file "snapshot") = Some fin
    ∧ exit_code fin = 0
    ∧ writes (events fin)
      = (if bool_decide (0 < 0)%nat
         then [Sample.stringify
                 (set_prop Sample.snapshot "generatedAt"
                    (VStr (generatedAt_commit Sample.clock)))]
         else [])
    ∧ data_file (files fin)
      = (if bool_decide (0 < 0)%nat
         then Some (Sample.stringify
                      (set_prop Sample.snapshot "generatedAt"
                         (VStr (generatedAt_commit Sample.clock))))
         else data_file (Sample.with_file "snapshot"))
    ∧ existing_keys
        (load Sample.parse (ensure_dir (Sample.with_file "snapshot")).1
           (generatedAt_default Sample.clock)).1
      = Ok keys
    ∧ (0%nat = 0%nat
       ↔ ∀ r, r ∈ [Sample.newer] → VStr (ghsa_id r) ∈ keys).
Proof.
  apply (C2_write_only_when_added Sample.parse Sample.stringify 2
           Sample.known_only Sample.clock (Sample.with_file "snapshot")
           {| page := 2; allNewAdvisories := [Sample.newer]; requests := 2 |}
           [ELog (LPage 1); EGet 1; ESleep (Num 1000);
            ELog (LPage 2); EGet 2; ELog LNoMoreData]
           Sample.snapshot 0).
  - reflexivity.
  - reflexivity.
Defined.

Lemma C6_legacy_list_discarded_witness :
  ∃ fin : Finished,
    run Sample.parse Sample.stringify 1 Sample.remote Sample.clock
        (Sample.with_file "[1]") = Some fin
    ∧ exit_code fin = 0
    ∧ load Sample.parse (ensure_dir (Sample.with_file "[1]")).1
        (generatedAt_default Sample.clock)
      = (empty_snapshot (generatedAt_default Sample.clock), [ELog LOldFormat])
    ∧ data_file (files fin)
      = Some (Sample.stringify
                (snapshot_of (generatedAt_commit Sample.clock)
                   (first_occurrences []
                      (transform <$> [Sample.newer; Sample.at_cutoff])))).
Proof.
  apply (C6_legacy_list_discarded Sample.parse Sample.stringify 1
           Sample.remote Sample.clock (Sample.with_file "[1]")
           {| page := 1; allNewAdvisories := [Sample.newer; Sample.at_cutoff];
              requests := 1 |}
           [ELog (LPage 1); EGet 1;
            ELog (LOlderThanCutoff "2023-11-14T22:13:19Z")]
           "[1]" [VNum 1]).
  - reflexivity.
  - reflexivity.
  - reflexivity.
Defined.

(** A run that fetches nothing leaves the bare list in the file. *)
Lemma C6_counterexample :
  Sample.parse "[1]" = Some (VArr [VNum 1])
  ∧ run Sample.parse Sample.stringify 1 Sample.nothing Sample.clock
        (Sample.with_file "[1]")
    = Some {| exit_code := 0;
              files := Sample.with_file "[1]";
              events := [ELog LFetching; ELog (LSince Sample.cutoff);
                         ELog (LPage 1); EGet 1; ELog LNoMoreData;
                         ELog (LFetched 0); ELog LOldFormat;
                         ELog (LAdded 0); ELog LNothingNew] |}.
Proof. split; reflexivity. Qed.

Lemma C9_fatal_failure_aborts_witness :
  run Sample.parse Sample.stringify (1 + 1) Sample.fails_on_page_2 Sample.clock
      (Sample.with_file "snapshot")
  = Some {| exit_code := 1;
            files := Sample.with_file "snapshot";
            events :=
              preamble Sample.clock
              ++ ([ELog (LPage 1); EGet 1; ESleep (Num 1000)]
                  ++ [ELog (LPage 2); EGet 2])
              ++ [EError (LFailure (Axios (Sample.rejection 500 ∅))); EExit 1] |}
  ∧ writes (preamble Sample.clock
            ++ ([ELog (LPage 1); EGet 1; ESleep (Num 1000)]
                ++ [ELog (LPage 2); EGet 2])
            ++ [EError (LFailure (Axios (Sample.rejection 500 ∅))); EExit 1])
    = [].
Proof.
  apply (C9_fatal_failure_aborts Sample.parse Sample.stringify 1 0
           Sample.fails_on_page_2 Sample.clock (Sample.with_file "snapshot")
           {| page := 2; allNewAdvisories := [Sample.newer]; requests := 1 |}
           [ELog (LPage 1); EGet 1; ESleep (Num 1000)]
           (Sample.rejection 500 ∅)).
  - reflexivity.
  - reflexivity.
  - reflexivity.
Defined.

Lemma C10_unchecked_snapshot_aborts_witness :
  load Sample.parse (ensure_dir (Sample.with_file "{}")).1
    (generatedAt_default Sample.clock) = (VObj [], [])
  ∧ ∃ (k : TypeErrorKind) (fin : Finished) (tr : list Event),
      merge (VObj []) (transform <$> [Sample.newer; Sample.at_cutoff])
        = Raise (TypeError k)
      ∧ run Sample.parse Sample.stringify 1 Sample.remote Sample.clock
            (Sample.with_file "{}") = Some fin
      ∧ exit_code fin = 1
      ∧ events fin = tr ++ [EError (LFailure (TypeError k)); EExit 1]
      ∧ writes (events fin) = []
      ∧ data_file (files fin) = Some "{}".
Proof.
  apply (C10_unchecked_snapshot_aborts Sample.parse Sample.stringify 1
           Sample.remote Sample.clock (Sample.with_file "{}")
           {| page := 1; allNewAdvisories := [Sample.newer; Sample.at_cutoff];
              requests := 1 |}
           [ELog (LPage 1); EGet 1;
            ELog (LOlderThanCutoff "2023-11-14T22:13:19Z")]
           "{}" (VObj [])).
  - reflexivity.
  - reflexivity.
  - reflexivity.
  - reflexivity.
  - reflexivity.
Defined.

(** ** The earlier revision *)

(** In the earlier revision a merge that adds nothing still rewrites the
    file when the snapshot holds more records than were fetched. *)
Lemma earlier_commit_rewrites :
  merge Sample.snapshot [transform Sample.newer] = Ok (Sample.snapshot, 0%nat)
  ∧ writes
      (Earlier.commit Sample.stringify Sample.snapshot
         [to_js (transform Sample.older); to_js (transform Sample.newer)]
         [transform Sample.newer] 0 "2024-11-14T22:13:25.000Z"
         (Sample.with_file "snapshot")).2
    = ["snapshot 1.0 2024-11-14T22:13:25.000Z"]
  ∧ writes
      (commit Sample.stringify Sample.snapshot 0 "2024-11-14T22:13:25.000Z"
         (Sample.with_file "snapshot")).2
    = [].
Proof. split; [| split]; reflexivity. Qed.

(** * Further properties *)

(** ** The rate-limit wait, for every header set *)


(** X1. Whatever the status, the headers and the clock, the rate-limit
    branch pauses for a whole number of seconds between 1 and 3599: it logs
    that number and sleeps a thousand times as many milliseconds. *)
Theorem X1_rate_limit_pause_bounded (r : ErrorResponse) (now_ms : Z) :
  ∃ w : Z,
    rate_limit_wait r now_ms
    = [ELog (LRateLimited (status r) (Num w)); ESleep (Num (w * 1000))]
    ∧ 0 < w < 3600.
Proof.
  destruct (waitTime_range (retryAfter (headers r) now_ms)) as (w & Hw & Hrange).
  exists w. split; [| done]. unfold rate_limit_wait. by rewrite Hw.
Qed.


(** ** What a page contributes *)

(** X3. Of any page, sorted or not, the scan accepts the longest leading
    run of records that are not older than the cutoff, in order, after the
    records it already holds. It keeps fetching exactly when the whole page
    was accepted; otherwise it logs the first older record, and the records
    after it on the page are dropped even when they are recent. *)
Theorem X3_scan_accepts_leading_run (cutoff : Z) (data acc : list RawRecord) :
  ∃ accepted dropped : list RawRecord,
    data = accepted ++ dropped
    ∧ Forall (recent cutoff) accepted
    ∧ match dropped with
      | [] => scan cutoff data acc = (acc ++ accepted, true, [])
      | r :: _ =>
          instant (published_at r) < cutoff
          ∧ scan cutoff data acc
            = (acc ++ accepted, false,
               [ELog (LOlderThanCutoff (iso (published_at r)))])
      end.
Proof.
  revert acc. induction data as [|r data IH]; intros acc.
  - exists [], []. simpl. by rewrite app_nil_r.
  - simpl. case_bool_decide as Hr.
    + exists [], (r :: data). simpl. by rewrite app_nil_r.
    + destruct (IH (acc ++ [r])) as (accepted & dropped & -> & Hall & Hscan).
      exists (r :: accepted), dropped. split; [done |]. split.
      * constructor; [unfold recent; lia | done].
      * rewrite <- app_assoc in Hscan. done.
Qed.

(** ** Walking the pages *)

Section FullPages.

Variable remote : Remote.
Variable cutoff : Z.

(** The records of each page. *)
Variable pages : nat -> list RawRecord.

(** A pass over a page that is not empty and holds recent records only. *)
Lemma iteration_full_page (st : LoopState) :
  reply remote (requests st) (page st) = Resolved (pages (page st)) →
  pages (page st) ≠ [] →
  Forall (recent cutoff) (pages (page st)) →
  iteration remote cutoff st
  = if bool_decide (MAX_PAGE < S (page st))%nat
    then (Leave {| page := S (page st);
                   allNewAdvisories := allNewAdvisories st ++ pages (page st);
                   requests := S (requests st) |},
          asked st ++ [ELog LMaxPage])
    else (Again {| page := S (page st);
                   allNewAdvisories := allNewAdvisories st ++ pages (page st);
                   requests := S (requests st) |},
          full_page_events (page st)).
Proof.
  intros Hreply Hne Hall. unfold iteration. rewrite Hreply.
  rewrite bool_decide_eq_false_2
    by (by destruct (pages (page st)) as [|? ?]).
  rewrite (scan_all_recent _ _ _ Hall). by case_bool_decide.
Qed.

(** [m] passes over such pages, below the ceiling. *)
Lemma passes_full_pages (m : nat) (st : LoopState) :
  (∀ i, (i < m)%nat →
     reply remote (requests st + i) (page st + i) = Resolved (pages (page st + i))
     ∧ pages (page st + i) ≠ []
     ∧ Forall (recent cutoff) (pages (page st + i))) →
  (page st + m <= MAX_PAGE)%nat →
  passes m remote cutoff st
  = Some ({| page := page st + m;
             allNewAdvisories :=
               allNewAdvisories st ++ concat (pages <$> seq (page st) m);
             requests := requests st + m |},
          concat (full_page_events <$> seq (page st) m)).
Proof.
  revert st. induction m as [|m IH]; intros st Hpages Hmax.
  - simpl. rewrite !Nat.add_0_r, app_nil_r. by destruct st.
  - destruct (Hpages 0%nat) as (Hreply & Hne & Hall); [lia |].
    rewrite !Nat.add_0_r in *.
    cbn [passes]. rewrite (iteration_full_page st Hreply Hne Hall).
    rewrite bool_decide_eq_false_2 by lia.
    rewrite IH; cbn [page requests allNewAdvisories].
    + csimpl. rewrite <- app_assoc.
      by rewrite <- !Nat.add_succ_r.
    + intros i Hi. specialize (Hpages (S i)).
      replace (requests st + S i)%nat with (S (requests st) + i)%nat
        in Hpages by lia.
      replace (page st + S i)%nat with (S (page st) + i)%nat in Hpages by lia.
      apply Hpages. lia.
    + lia.
Qed.

End FullPages.

(** X4. When the endpoint serves [N] pages (fewer than 500) that are not
    empty and hold recent records only, and then an empty page, the loop
    returns the records of the [N] pages in order, nothing lost, after
    [N + 1] requests for the pages 1 to [N + 1], with a pause of one second
    after each of the [N] pages and none after the empty one. *)
Theorem X4_empty_page_ends_the_fetch (remote : Remote) (cutoff : Z)
    (pages : nat -> list RawRecord) (N : nat) :
  (∀ i, (i < N)%nat →
     reply remote i (S i) = Resolved (pages (S i))
     ∧ pages (S i) ≠ []
     ∧ Forall (recent cutoff) (pages (S i))) →
  reply remote N (S N) = Resolved [] →
  (N < MAX_PAGE)%nat →
  fetch_loop (N + 1) remote cutoff initial_state
  = Some (Fetched {| page := S N;
                     allNewAdvisories := concat (pages <$> seq 1 N);
                     requests := S N |},
          concat (full_page_events <$> seq 1 N)
          ++ [ELog (LPage (S N)); EGet (S N); ELog LNoMoreData]).
Proof.
  intros Hpages Hempty Hmax.
  rewrite (fetch_loop_passes remote cutoff N 1 initial_state _ _
             (passes_full_pages remote cutoff pages N initial_state
                Hpages ltac:(simpl; lia))).
  simpl. unfold iteration. simpl. by rewrite Hempty.
Qed.

Lemma X4_empty_page_ends_the_fetch_witness :
  fetch_loop (2 + 1) Sample.two_pages Sample.cutoff initial_state
  = Some (Fetched {| page := 3;
                     allNewAdvisories :=
                       concat ((fun p => match p with
                                         | 1%nat => [Sample.newer]
                                         | _ => [Sample.at_cutoff]
                                         end) <$> seq 1 2);
                     requests := 3 |},
          concat (full_page_events <$> seq 1 2)
          ++ [ELog (LPage 3); EGet 3; ELog LNoMoreData]).
Proof.
  apply (X4_empty_page_ends_the_fetch Sample.two_pages Sample.cutoff
           (fun p => match p with
                     | 1%nat => [Sample.newer]
                     | _ => [Sample.at_cutoff]
                     end) 2).
  - intros i Hi. destruct i as [|[|i]]; [| | lia].
    + split; [reflexivity | split; [discriminate |]].
      constructor; [| constructor]. vm_compute. discriminate.
    + split; [reflexivity | split; [discriminate |]].
      constructor; [| constructor]. vm_compute. discriminate.
  - reflexivity.
  - unfold MAX_PAGE. lia.
Defined.

(** The pass that reaches the ceiling, for the page number [S N]. *)
Lemma fetch_to_ceiling (remote : Remote) (cutoff : Z)
    (pages : nat -> list RawRecord) (N : nat) :
  S N = MAX_PAGE →
  (∀ i, (i < S N)%nat →
     reply remote i (S i) = Resolved (pages (S i))
     ∧ pages (S i) ≠ []
     ∧ Forall (recent cutoff) (pages (S i))) →
  fetch_loop (N + 1) remote cutoff initial_state
  = Some (Fetched {| page := S (S N);
                     allNewAdvisories := concat (pages <$> seq 1 (S N));
                     requests := S N |},
          concat (full_page_events <$> seq 1 N)
          ++ [ELog (LPage (S N)); EGet (S N); ELog LMaxPage]).
Proof.
  intros Hmax Hpages.
  rewrite (fetch_loop_passes remote cutoff N 1 initial_state _ _
             (passes_full_pages remote cutoff pages N initial_state
                ltac:(intros i Hi; apply Hpages; lia)
                ltac:(simpl; lia))).
  destruct (Hpages N) as (Hreply & Hne & Hall); [lia |].
  cbn [fetch_loop].
  change (iteration remote cutoff _)
    with (iteration remote cutoff
            {| page := S N;
               allNewAdvisories := concat (pages <$> seq 1 N);
               requests := N |}).
  rewrite (iteration_full_page remote cutoff pages
             {| page := S N;
                allNewAdvisories := concat (pages <$> seq 1 N);
                requests := N |} Hreply Hne Hall).
  cbn [page allNewAdvisories requests].
  rewrite bool_decide_eq_true_2 by lia.
  by rewrite seq_S, fmap_app, concat_app; simpl; rewrite app_nil_r.
Qed.

(** X5. When the first 500 pages are not empty and hold recent records only,
    the loop returns the records of exactly these 500 pages after 500
    requests and stops there: it logs that the limit is reached, does not
    pause, and never asks for page 501, whatever the endpoint would answer. *)
Theorem X5_ceiling_cuts_the_fetch (remote : Remote) (cutoff : Z)
    (pages : nat -> list RawRecord) :
  (∀ i, (i < MAX_PAGE)%nat →
     reply remote i (S i) = Resolved (pages (S i))
     ∧ pages (S i) ≠ []
     ∧ Forall (recent cutoff) (pages (S i))) →
  fetch_loop MAX_PAGE remote cutoff initial_state
  = Some (Fetched {| page := S MAX_PAGE;
                     allNewAdvisories := concat (pages <$> seq 1 MAX_PAGE);
                     requests := MAX_PAGE |},
          concat (full_page_events <$> seq 1 (pred MAX_PAGE))
          ++ [ELog (LPage MAX_PAGE); EGet MAX_PAGE; ELog LMaxPage]).
Proof.
  intros Hpages.
  exact (fetch_to_ceiling remote cutoff pages (pred MAX_PAGE) eq_refl Hpages).
Qed.

Lemma X5_ceiling_cuts_the_fetch_witness :
  fetch_loop MAX_PAGE Sample.endless Sample.cutoff initial_state
  = Some (Fetched {| page := S MAX_PAGE;
                     allNewAdvisories :=
                       concat ((fun _ => [Sample.newer]) <$> seq 1 MAX_PAGE);
                     requests := MAX_PAGE |},
          concat (full_page_events <$> seq 1 (pred MAX_PAGE))
          ++ [ELog (LPage MAX_PAGE); EGet MAX_PAGE; ELog LMaxPage]).
Proof.
  apply (X5_ceiling_cuts_the_fetch Sample.endless Sample.cutoff
           (fun _ => [Sample.newer])).
  intros i _. split; [reflexivity | split; [discriminate |]].
  constructor; [| constructor]. vm_compute. discriminate.
Defined.

(** ** What every run of the loop keeps *)

Section LoopInvariants.

Variable remote : Remote.
Variable cutoff : Z.

Implicit Types (st : LoopState) (evs : list Event).

Lemma scan_extends (data acc acc' : list RawRecord) (keep : bool) evs :
  scan cutoff data acc = (acc', keep, evs) → acc `prefix_of` acc'.
Proof.
  revert acc. induction data as [|r data IH]; intros acc; simpl.
  - by intros [= <- _ _].
  - case_bool_decide; [by intros [= <- _ _] |].
    intros Hs. etrans; [| apply (IH _ Hs)]. by apply prefix_app_r.
Qed.

Lemma iteration_extends st s evs :
  iteration remote cutoff st = (s, evs) →
  match s with Again st' | Leave st' | Throw _ st' =>
    allNewAdvisories st `prefix_of` allNewAdvisories st'
  end.
Proof.
  unfold iteration.
  destruct (reply remote (requests st) (page st)) as [data|e].
  - case_bool_decide; [by intros [= <- _] |].
    destruct (scan cutoff data (allNewAdvisories st))
      as [[acc keep] logged] eqn:Hs.
    apply scan_extends in Hs.
    destruct keep; [case_bool_decide |]; by intros [= <- _].
  - destruct (response e) as [r|]; [| by intros [= <- _]].
    destruct (_ || _); by intros [= <- _].
Qed.

(** A pass that goes back to the test pauses once, for 1 to 3599 seconds;
    a pass that ends the loop does not pause. *)
Lemma iteration_sleeps st s evs :
  iteration remote cutoff st = (s, evs) →
  match s with
  | Again _ => ∃ ms, sleeps evs = [Num ms] ∧ 1000 <= ms <= 3599000
  | _ => sleeps evs = []
  end.
Proof.
  unfold iteration.
  destruct (reply remote (requests st) (page st)) as [data|e].
  - case_bool_decide; [by intros [= <- <-] |].
    destruct (scan cutoff data (allNewAdvisories st))
      as [[acc keep] logged] eqn:Hs.
    destruct (scan_logged _ _ _ _ _ _ Hs) as (_ & _ & Hsl).
    destruct keep; [case_bool_decide |]; intros [= <- <-]; csimpl;
      rewrite ?sleeps_app, ?Hsl; try done.
    exists 1000. by split; [| lia].
  - destruct (response e) as [r|]; [| by intros [= <- <-]].
    destruct (_ || _); [| by intros [= <- <-]]. intros [= <- <-].
    unfold rate_limit_wait.
    destruct (waitTime_range (retryAfter (headers r)
                                (Date_now remote (requests st))))
      as (w & -> & Hw).
    exists (w * 1000). split; [done | lia].
Qed.

Lemma steps_by_one_cons (p q : nat) (l : list nat) :
  q = p ∨ q = S p → steps_by_one (q :: l) → steps_by_one (p :: q :: l).
Proof.
  intros Hpq Hl [|i] p' q' Hp' Hq'; simpl in *.
  - by simplify_eq.
  - by apply (Hl i).
Qed.

Lemma steps_by_one_singleton (p : nat) : steps_by_one [p].
Proof. intros [|i] p' q' Hp' Hq'; simpl in *; done. Qed.

(** What the rest of the loop does, from any state. *)
Lemma fetch_loop_invariants (fuel : nat) st (e : LoopEnd) evs :
  fetch_loop fuel remote cutoff st = Some (e, evs) →
  allNewAdvisories st `prefix_of` allNewAdvisories (end_state e)
  ∧ (∃ later, pages_requested evs = page st :: later)
  ∧ steps_by_one (pages_requested evs)
  ∧ length (pages_requested evs) = S (length (sleeps evs))
  ∧ Forall (fun ms => ∃ z, ms = Num z ∧ 1000 <= z <= 3599000) (sleeps evs).
Proof.
  revert st e evs. induction fuel as [|fuel IH]; intros st e evs; [done |].
  simpl.
  destruct (iteration remote cutoff st) as [[st1|st1|x st1] evs1] eqn:Hit;
    pose proof (iteration_extends _ _ _ Hit) as Hext;
    pose proof (iteration_sleeps _ _ _ Hit) as Hsl;
    destruct (iteration_events _ _ _ _ _ Hit) as [_ Hpages]; simpl in *.
  - destruct (fetch_loop fuel remote cutoff st1) as [[e1 evs2]|] eqn:Hloop;
      [| done].
    intros [= <- <-].
    destruct (IH _ _ _ Hloop) as (Hpre & [later Hfirst] & Hsteps & Hlen & Hall).
    destruct Hsl as (ms & Hms & Hrange).
    unfold pages_requested in *. rewrite sleeps_app, omap_app, Hpages, Hms.
    split; [by etrans |]. split; [by eexists |].
    split; [| split].
    + simpl. rewrite Hfirst in *. apply steps_by_one_cons; [| done].
      destruct (iteration_again_page _ _ _ _ _ Hit) as [[-> _]|(-> & _)]; auto.
    + simpl. by rewrite Hlen.
    + constructor; [by exists ms | done].
  - intros [= <- <-]. rewrite Hpages, Hsl.
    split; [done |]. split; [by exists [] |].
    split; [apply steps_by_one_singleton |]. split; [done | constructor].
  - intros [= <- <-]. rewrite Hpages, Hsl.
    split; [done |]. split; [by exists [] |].
    split; [apply steps_by_one_singleton |]. split; [done | constructor].
Qed.

End LoopInvariants.

(** X6. On any endpoint, a loop that ends has asked for page 1 first, and
    each further request was for the page of the request before it (after a
    rate-limit wait) or for the next page: no page is skipped and none is
    asked for again once the loop moved on. *)
Theorem X6_pages_asked_in_order (fuel : nat) (remote : Remote) (cutoff : Z)
    (e : LoopEnd) (evs : list Event) :
  fetch_loop fuel remote cutoff initial_state = Some (e, evs) →
  (∃ later, pages_requested evs = 1%nat :: later)
  ∧ steps_by_one (pages_requested evs).
Proof.
  intros Hloop.
  destruct (fetch_loop_invariants _ _ _ _ _ _ Hloop) as (_ & Hfirst & Hsteps & _).
  done.
Qed.

Lemma X6_pages_asked_in_order_witness :
  (∃ later,
     pages_requested
       ([ELog (LPage 1); EGet 1; ESleep (Num 1000)]
        ++ ([ELog (LPage 2); EGet 2]
            ++ [ELog (LRateLimited 429 (Num 60)); ESleep (Num 60000)])
        ++ [ELog (LPage 2); EGet 2; ESleep (Num 1000);
            ELog (LPage 3); EGet 3; ELog LNoMoreData])
     = 1%nat :: later)
  ∧ steps_by_one
      (pages_requested
         ([ELog (LPage 1); EGet 1; ESleep (Num 1000)]
          ++ ([ELog (LPage 2); EGet 2]
              ++ [ELog (LRateLimited 429 (Num 60)); ESleep (Num 60000)])
          ++ [ELog (LPage 2); EGet 2; ESleep (Num 1000);
              ELog (LPage 3); EGet 3; ELog LNoMoreData])).
Proof.
  apply (X6_pages_asked_in_order 4
           (induce_failure 1 Sample.retry_after_5 1731622400000 Sample.two_pages)
           Sample.cutoff
           (Fetched {| page := 3;
                       allNewAdvisories := [Sample.newer; Sample.at_cutoff];
                       requests := 4 |})).
  reflexivity.
Defined.



(** X8. A pass never drops or reorders a record accepted before: the
    records a loop ends with start with the records it held at any earlier
    point, also across rate-limit retries and when the loop ends in an
    error. *)
Theorem X8_accepted_records_are_kept (n fuel : nat) (remote : Remote)
    (cutoff : Z) (st : LoopState) (evs0 evs : list Event) (e : LoopEnd) :
  passes n remote cutoff initial_state = Some (st, evs0) →
  fetch_loop (n + fuel) remote cutoff initial_state = Some (e, evs) →
  allNewAdvisories st `prefix_of` allNewAdvisories (end_state e).
Proof.
  intros Hp Hloop. rewrite (fetch_loop_passes _ _ _ _ _ _ _ Hp) in Hloop.
  destruct (fetch_loop fuel remote cutoff st) as [[e1 evs1]|] eqn:Hrest;
    [| done].
  injection Hloop as <- _.
  by destruct (fetch_loop_invariants _ _ _ _ _ _ Hrest) as (Hpre & _).
Qed.

Lemma X8_accepted_records_are_kept_witness :
  [Sample.newer] `prefix_of` [Sample.newer; Sample.at_cutoff].
Proof.
  apply (X8_accepted_records_are_kept 1 2 Sample.two_pages Sample.cutoff
           {| page := 2; allNewAdvisories := [Sample.newer]; requests := 1 |}
           [ELog (LPage 1); EGet 1; ESleep (Num 1000)]
           ([ELog (LPage 1); EGet 1; ESleep (Num 1000)]
            ++ [ELog (LPage 2); EGet 2; ESleep (Num 1000);
                ELog (LPage 3); EGet 3; ELog LNoMoreData])
           (Fetched {| page := 3;
                       allNewAdvisories := [Sample.newer; Sample.at_cutoff];
                       requests := 3 |})).
  - reflexivity.
  - reflexivity.
Defined.

(** ** Any rate-limit rejection *)

(** X9. A rejection with status 429 or 403 of the [k]-th request, whatever
    its headers, is invisible in the result: compared with the run in which
    that request is not rejected, the run makes one more request, for the
    same page, after one wait, and ends the same way with the same
    records. *)
Theorem X9_rate_limit_rejection_is_transparent (remote : Remote) (cutoff : Z)
    (k fuel : nat) (now_ms : Z) (e : AxiosError) (r : ErrorResponse)
    (st : LoopState) (evs0 evs1 : list Event) (x : LoopEnd) :
  response e = Some r →
  status r = 429 ∨ status r = 403 →
  passes k remote cutoff initial_state = Some (st, evs0) →
  fetch_loop fuel remote cutoff st = Some (x, evs1) →
  fetch_loop (k + S fuel) (induce_failure k e now_ms remote) cutoff initial_state
  = Some (one_more_request x,
          evs0 ++ (asked st ++ rate_limit_wait r now_ms) ++ evs1)
  ∧ allNewAdvisories (end_state (one_more_request x))
    = allNewAdvisories (end_state x)
  ∧ pages_requested (evs0 ++ (asked st ++ rate_limit_wait r now_ms) ++ evs1)
    = pages_requested evs0 ++ page st :: pages_requested evs1.
Proof.
  intros Hr Hstatus Hp Hloop. split; [| split].
  - apply (induced_failure_run remote cutoff k e now_ms fuel st r
             evs0 evs1 x Hr); [| done | done].
    unfold is_rate_limit. rewrite Hr.
    destruct Hstatus as [-> | ->]; done.
  - apply one_more_request_records.
  - unfold pages_requested. by rewrite !omap_app.
Qed.

Lemma X9_rate_limit_rejection_is_transparent_witness :
  fetch_loop (1 + 3)
    (induce_failure 1 Sample.forbidden_until_reset 1731622400000
       Sample.two_pages)
    Sample.cutoff initial_state
  = Some (Fetched {| page := 3;
                     allNewAdvisories := [Sample.newer; Sample.at_cutoff];
                     requests := 4 |},
          [ELog (LPage 1); EGet 1; ESleep (Num 1000)]
          ++ ([ELog (LPage 2); EGet 2]
              ++ [ELog (LRateLimited 403 (Num 30)); ESleep (Num 30000)])
          ++ [ELog (LPage 2); EGet 2; ESleep (Num 1000);
              ELog (LPage 3); EGet 3; ELog LNoMoreData])
  ∧ [Sample.newer; Sample.at_cutoff] = [Sample.newer; Sample.at_cutoff]
  ∧ pages_requested
      ([ELog (LPage 1); EGet 1; ESleep (Num 1000)]
       ++ ([ELog (LPage 2); EGet 2]
           ++ [ELog (LRateLimited 403 (Num 30)); ESleep (Num 30000)])
       ++ [ELog (LPage 2); EGet 2; ESleep (Num 1000);
           ELog (LPage 3); EGet 3; ELog LNoMoreData])
    = [1%nat] ++ 2%nat :: [2%nat; 3%nat].
Proof.
  refine (X9_rate_limit_rejection_is_transparent Sample.two_pages Sample.cutoff
           1 2 1731622400000 Sample.forbidden_until_reset
           {| status := 403;
              headers := <[ "retry-after" := "5" ]>
                           {[ "x-ratelimit-reset" := "1731622430" ]} |}
           {| page := 2; allNewAdvisories := [Sample.newer]; requests := 1 |}
           [ELog (LPage 1); EGet 1; ESleep (Num 1000)]
           [ELog (LPage 2); EGet 2; ESleep (Num 1000);
            ELog (LPage 3); EGet 3; ELog LNoMoreData]
           (Fetched {| page := 3;
                       allNewAdvisories := [Sample.newer; Sample.at_cutoff];
                       requests := 3 |}) _ _ _ _).
  - reflexivity.
  - right. reflexivity.
  - reflexivity.
  - reflexivity.
Defined.

(** ** Every run *)

Section RunOutcomes.

Variable JSON_parse : string -> option jsval.
Variable JSON_stringify : jsval -> string.

Implicit Types (fs : Files) (clock : Clock) (st : LoopState).

#[local] Abbreviation run' := (run JSON_parse JSON_stringify).
#[local] Abbreviation persist' := (persist JSON_parse JSON_stringify).
#[local] Abbreviation load' := (load JSON_parse).

Lemma persist_outcomes clock fs st before :
  writes before = [] →
  ends_well fs (persist' clock fs st before)
  ∨ ends_badly fs (persist' clock fs st before).
Proof.
  intros Hb.
  destruct (merge (load' (ensure_dir fs).1 (generatedAt_default clock)).1
              (transform <$> allNewAdvisories st)) as [[d' n]|thrown] eqn:Hm.
  - left.
    destruct (persist_merged JSON_parse JSON_stringify clock fs st before
                d' n Hm Hb) as (Hexit & Hw & Hf).
    split; [done |]. rewrite Hw, Hf. case_bool_decide; eauto.
  - right.
    destruct (persist_raised JSON_parse JSON_stringify clock fs st before
                thrown Hm Hb) as (Hexit & Hw & Hf & tr & Htr).
    repeat split; eauto.
Qed.

(** X10. Every run that ends does so in one of two ways. Either it exits
    with code 0, having written the snapshot file at most once, and the file
    holds what was written (or what it held, if nothing was); or it logs the
    error as its last line and exits with code 1, having written nothing,
    the file as it was before the run. *)
Theorem X10_run_ends_well_or_badly (fuel : nat) (remote : Remote) clock fs
    (fin : Finished) :
  run' fuel remote clock fs = Some fin →
  ends_well fs fin ∨ ends_badly fs fin.
Proof.
  unfold run.
  destruct (fetch_loop fuel remote (oneYearAgo clock) initial_state)
    as [[[st|e st] evs]|] eqn:Hloop; [| | done].
  - intros [= <-]. apply persist_outcomes.
    exact (fetch_loop_writes _ _ _ _ _ _ Hloop).
  - intros [= <-]. right. unfold crash, ends_badly.
    cbn [exit_code events files].
    split; [done |]. split; [| split; [done | eauto]].
    pose proof (fetch_loop_writes _ _ _ _ _ _ Hloop) as Hw.
    unfold writes in *. rewrite omap_app. csimpl. by rewrite Hw.
Qed.

(** A run that starts from the empty snapshot, in full. *)
Lemma persist_fresh clock fs st before noted :
  load' (ensure_dir fs).1 (generatedAt_default clock)
    = (empty_snapshot (generatedAt_default clock), noted) →
  persist' clock fs st before
  = {| exit_code := 0;
       files :=
         {| dir_exists := true;
            data_file :=
              match first_occurrences [] (transform <$> allNewAdvisories st) with
              | [] => data_file fs
              | added =>
                  Some (JSON_stringify
                          (snapshot_of (generatedAt_commit clock) added))
              end |};
       events :=
         before
         ++ [ELog (LFetched (length (allNewAdvisories st)))]
         ++ (if dir_exists fs then [] else [EMkdir])
         ++ noted
         ++ [ELog (LAdded (length (first_occurrences []
                                     (transform <$> allNewAdvisories st))))]
         ++ match first_occurrences [] (transform <$> allNewAdvisories st) with
            | [] => [ELog LNothingNew]
            | added =>
                [EWrite (JSON_stringify
                           (snapshot_of (generatedAt_commit clock) added));
                 ELog LSaved]
            end |}.
Proof.
  intros Hload. unfold persist.
  assert (ensure_dir fs
          = ({| dir_exists := true; data_file := data_file fs |},
             if dir_exists fs then [] else [EMkdir])) as Hdir.
  { unfold ensure_dir. destruct fs as [[] file]; done. }
  rewrite Hdir in *. cbn [fst snd] in Hload. rewrite Hload.
  unfold empty_snapshot.
  rewrite (merge_VObj
             [ ("schemaVersion", VStr "1.0");
               ("generatedAt", VStr (generatedAt_default clock));
               ("advisories", VArr []) ]
             [] [] (transform <$> allNewAdvisories st) eq_refl eq_refl).
  unfold commit. cbn [string_keys omap list_omap app length].
  destruct (first_occurrences [] (transform <$> allNewAdvisories st))
    as [|r added]; cbn [length dir_exists data_file].
  - rewrite bool_decide_eq_false_2 by lia. f_equal.
    rewrite <- !app_assoc. f_equal. simpl. f_equal. by rewrite <- !app_assoc.
  - rewrite bool_decide_eq_true_2 by lia. f_equal.
    rewrite <- !app_assoc. f_equal. simpl. f_equal. by rewrite <- !app_assoc.
Qed.

(** X11. On a first run, with no snapshot file, the run creates the data
    directory if it is missing, starts from the empty snapshot and exits
    with code 0. If it fetched a record, it writes, once, the versioned
    snapshot (schema version 1.0, [generatedAt] at commit time) of the
    fetched records, transformed, one per identity key in the order fetched;
    if it fetched none, it creates no file. *)
Theorem X11_first_run_creates_the_snapshot (fuel : nat) (remote : Remote)
    clock fs st (evs : list Event) :
  fetch_loop fuel remote (oneYearAgo clock) initial_state
    = Some (Fetched st, evs) →
  data_file fs = None →
  run' fuel remote clock fs
  = Some
      {| exit_code := 0;
         files :=
           {| dir_exists := true;
              data_file :=
                match first_occurrences [] (transform <$> allNewAdvisories st) with
                | [] => None
                | added =>
                    Some (JSON_stringify
                            (snapshot_of (generatedAt_commit clock) added))
                end |};
         events :=
           (preamble clock ++ evs)
           ++ [ELog (LFetched (length (allNewAdvisories st)))]
           ++ (if dir_exists fs then [] else [EMkdir])
           ++ []
           ++ [ELog (LAdded (length (first_occurrences []
                                       (transform <$> allNewAdvisories st))))]
           ++ match first_occurrences [] (transform <$> allNewAdvisories st) with
              | [] => [ELog LNothingNew]
              | added =>
                  [EWrite (JSON_stringify
                             (snapshot_of (generatedAt_commit clock) added));
                   ELog LSaved]
              end |}.
Proof.
  intros Hloop Hfile. rewrite (run_fetched _ _ _ _ _ _ _ _ Hloop).
  rewrite (persist_fresh clock fs st _ []).
  - by rewrite Hfile.
  - unfold load. by rewrite ensure_dir_data_file, Hfile.
Qed.

(** X12. A snapshot file that [JSON.parse] rejects does not stop the run:
    the parse error is logged, the run starts from the empty snapshot and
    exits with code 0. If it fetched a record, the file is replaced by the
    versioned snapshot of the fetched records; if it fetched none, the
    unreadable file is left as it is. *)
Theorem X12_unreadable_file_is_replaced (fuel : nat) (remote : Remote)
    clock fs st (evs : list Event) (content : string) :
  fetch_loop fuel remote (oneYearAgo clock) initial_state
    = Some (Fetched st, evs) →
  data_file fs = Some content →
  JSON_parse content = None →
  run' fuel remote clock fs
  = Some
      {| exit_code := 0;
         files :=
           {| dir_exists := true;
              data_file :=
                match first_occurrences [] (transform <$> allNewAdvisories st) with
                | [] => Some content
                | added =>
                    Some (JSON_stringify
                            (snapshot_of (generatedAt_commit clock) added))
                end |};
         events :=
           (preamble clock ++ evs)
           ++ [ELog (LFetched (length (allNewAdvisories st)))]
           ++ (if dir_exists fs then [] else [EMkdir])
           ++ [EError LParseError]
           ++ [ELog (LAdded (length (first_occurrences []
                                       (transform <$> allNewAdvisories st))))]
           ++ match first_occurrences [] (transform <$> allNewAdvisories st) with
              | [] => [ELog LNothingNew]
              | added =>
                  [EWrite (JSON_stringify
                             (snapshot_of (generatedAt_commit clock) added));
                   ELog LSaved]
              end |}.
Proof.
  intros Hloop Hfile Hparse. rewrite (run_fetched _ _ _ _ _ _ _ _ Hloop).
  rewrite (persist_fresh clock fs st _ [EError LParseError]).
  - by rewrite Hfile.
  - unfold load. by rewrite ensure_dir_data_file, Hfile, Hparse.
Qed.

End RunOutcomes.

Lemma X10_run_ends_well_or_badly_witness :
  ends_well (Sample.with_file "[1]")
    {| exit_code := 0;
       files := Sample.with_file "snapshot 1.0 2024-11-14T22:13:25.000Z";
       events := [ELog LFetching; ELog (LSince Sample.cutoff);
                  ELog (LPage 1); EGet 1;
                  ELog (LOlderThanCutoff "2023-11-14T22:13:19Z");
                  ELog (LFetched 2); ELog LOldFormat; ELog (LAdded 2);
                  EWrite "snapshot 1.0 2024-11-14T22:13:25.000Z";
                  ELog LSaved] |}
  ∨ ends_badly (Sample.with_file "[1]")
      {| exit_code := 0;
         files := Sample.with_file "snapshot 1.0 2024-11-14T22:13:25.000Z";
         events := [ELog LFetching; ELog (LSince Sample.cutoff);
                    ELog (LPage 1); EGet 1;
                    ELog (LOlderThanCutoff "2023-11-14T22:13:19Z");
                    ELog (LFetched 2); ELog LOldFormat; ELog (LAdded 2);
                    EWrite "snapshot 1.0 2024-11-14T22:13:25.000Z";
                    ELog LSaved] |}.
Proof.
  apply (X10_run_ends_well_or_badly Sample.parse Sample.stringify 1
           Sample.remote Sample.clock (Sample.with_file "[1]")).
  reflexivity.
Defined.

Lemma X11_first_run_creates_the_snapshot_witness :
  run Sample.parse Sample.stringify 1 Sample.remote Sample.clock
      Sample.no_directory
  = Some {| exit_code := 0;
            files := Sample.with_file "snapshot 1.0 2024-11-14T22:13:25.000Z";
            events := [ELog LFetching; ELog (LSince Sample.cutoff);
                       ELog (LPage 1); EGet 1;
                       ELog (LOlderThanCutoff "2023-11-14T22:13:19Z");
                       ELog (LFetched 2); EMkdir; ELog (LAdded 2);
                       EWrite "snapshot 1.0 2024-11-14T22:13:25.000Z";
                       ELog LSaved] |}.
Proof.
  refine (X11_first_run_creates_the_snapshot Sample.parse Sample.stringify 1
            Sample.remote Sample.clock Sample.no_directory
            {| page := 1; allNewAdvisories := [Sample.newer; Sample.at_cutoff];
               requests := 1 |}
            [ELog (LPage 1); EGet 1;
             ELog (LOlderThanCutoff "2023-11-14T22:13:19Z")] _ _).
  - reflexivity.
  - reflexivity.
Defined.

Lemma X12_unreadable_file_is_replaced_witness :
  run Sample.parse Sample.stringify 1 Sample.remote Sample.clock
      (Sample.with_file "{ not json")
  = Some {| exit_code := 0;
            files := Sample.with_file "snapshot 1.0 2024-11-14T22:13:25.000Z";
            events := [ELog LFetching; ELog (LSince Sample.cutoff);
                       ELog (LPage 1); EGet 1;
                       ELog (LOlderThanCutoff "2023-11-14T22:13:19Z");
                       ELog (LFetched 2); EError LParseError; ELog (LAdded 2);
                       EWrite "snapshot 1.0 2024-11-14T22:13:25.000Z";
                       ELog LSaved] |}.
Proof.
  refine (X12_unreadable_file_is_replaced Sample.parse Sample.stringify 1
            Sample.remote Sample.clock (Sample.with_file "{ not json")
            {| page := 1; allNewAdvisories := [Sample.newer; Sample.at_cutoff];
               requests := 1 |}
            [ELog (LPage 1); EGet 1;
             ELog (LOlderThanCutoff "2023-11-14T22:13:19Z")]
            "{ not json" _ _ _).
  - reflexivity.
  - reflexivity.
  - reflexivity.
Defined.

(** ** More on the merge *)

Lemma assoc_replace_field_ne (k k' : string) (v : jsval)
    (fields : list (string * jsval)) :
  k' ≠ k → assoc k' (replace_field k v fields) = assoc k' fields.
Proof.
  intros Hne. induction fields as [|[k0 v0] fields IH]; simpl.
  - by rewrite bool_decide_eq_false_2.
  - case_bool_decide as Hk; simpl.
    + subst k0. by rewrite !bool_decide_eq_false_2 by done.
    + by rewrite IH.
Qed.

Lemma first_occurrences_app (seen : list string)
    (batch1 batch2 : list NormalizedRecord) :
  first_occurrences seen (batch1 ++ batch2)
  = first_occurrences seen batch1
    ++ first_occurrences
         (seen ++ (Normalized.sourceId <$> first_occurrences seen batch1))
         batch2.
Proof.
  revert seen. induction batch1 as [|r batch1 IH]; intros seen; simpl.
  - by rewrite app_nil_r.
  - case_bool_decide; [apply IH |].
    rewrite IH. csimpl. by rewrite <- app_assoc.
Qed.

(** X13. The merge and the commit touch two fields of the loaded snapshot
    only: every other field of the object read from the file (its
    [schemaVersion], and any field the script does not know) is in the
    object that is written, with the value it had, and [generatedAt] holds
    the new time. *)
Theorem X13_other_fields_are_kept (existingData existingData' : jsval)
    (batch : list NormalizedRecord) (n : nat) (generatedAt : jsval)
    (k : string) :
  merge existingData batch = Ok (existingData', n) →
  k ≠ "advisories" →
  k ≠ "generatedAt" →
  get_prop (set_prop existingData' "generatedAt" generatedAt) k
    = get_prop existingData k
  ∧ get_prop (set_prop existingData' "generatedAt" generatedAt) "generatedAt"
    = Ok generatedAt.
Proof.
  intros Hm Hk1 Hk2. destruct (merge_Ok _ _ _ _ Hm) as [keys Hkeys].
  destruct (existing_keys_Ok _ _ Hkeys) as (fields & items & -> & Ha & Hs).
  rewrite (merge_VObj _ _ _ _ Ha Hs) in Hm. injection Hm as <- _.
  simpl. split.
  - by rewrite !assoc_replace_field_ne by done.
  - by rewrite assoc_replace_field.
Qed.

Lemma X13_other_fields_are_kept_witness :
  get_prop
    (set_prop
       (set_prop Sample.snapshot "advisories"
          (VArr [to_js (transform Sample.older); to_js (transform Sample.newer);
                 to_js (transform Sample.at_cutoff)]))
       "generatedAt" (VStr "2024-11-14T22:13:25.000Z"))
    "schemaVersion"
  = get_prop Sample.snapshot "schemaVersion"
  ∧ get_prop
      (set_prop
         (set_prop Sample.snapshot "advisories"
            (VArr [to_js (transform Sample.older);
                   to_js (transform Sample.newer);
                   to_js (transform Sample.at_cutoff)]))
         "generatedAt" (VStr "2024-11-14T22:13:25.000Z"))
      "generatedAt"
    = Ok (VStr "2024-11-14T22:13:25.000Z").
Proof.
  apply (X13_other_fields_are_kept Sample.snapshot _ Sample.batch 1).
  - reflexivity.
  - discriminate.
  - discriminate.
Defined.

(** X14. After a merge that returns, every identity key of the snapshot is
    still there, in place, followed by the keys of the records added; the
    count the merge reports is the number of keys added; each added key was
    absent before (a record already in the snapshot is never replaced by a
    fetched one); and the key of every record of the batch is now present. *)
Theorem X14_merge_accounts_for_every_key (existingData existingData' : jsval)
    (batch : list NormalizedRecord) (n : nat) (keys : list jsval) :
  existing_keys existingData = Ok keys →
  merge existingData batch = Ok (existingData', n) →
  ∃ keys' : list jsval,
    existing_keys existingData' = Ok (keys ++ keys')
    ∧ length keys' = n
    ∧ (∀ k, k ∈ keys' → k ∉ keys)
    ∧ (∀ r, r ∈ batch → VStr (Normalized.sourceId r) ∈ keys ++ keys').
Proof.
  intros Hkeys Hm.
  destruct (existing_keys_Ok _ _ Hkeys) as (fields & items & -> & Ha & Hs).
  rewrite (merge_VObj _ _ _ _ Ha Hs) in Hm. injection Hm as <- <-.
  set (added := first_occurrences (string_keys keys) batch).
  exists (key_of <$> added). split; [| split; [| split]].
  - unfold existing_keys. simpl. rewrite assoc_replace_field. simpl.
    apply source_ids_app; [done | apply source_ids_to_js].
  - by rewrite length_fmap.
  - intros k (r & -> & Hr)%list_elem_of_fmap Hin.
    apply (first_occurrences_fresh _ _ _ Hr). by apply elem_of_string_keys.
  - intros r Hr. apply elem_of_string_keys.
    rewrite string_keys_app, string_keys_key_of.
    by apply first_occurrences_covers.
Qed.

Lemma X14_merge_accounts_for_every_key_witness :
  ∃ keys' : list jsval,
    existing_keys
      (set_prop Sample.snapshot "advisories"
         (VArr [to_js (transform Sample.older); to_js (transform Sample.newer);
                to_js (transform Sample.at_cutoff)]))
    = Ok (Sample.snapshot_keys ++ keys')
    ∧ length keys' = 1%nat
    ∧ (∀ k, k ∈ keys' → k ∉ Sample.snapshot_keys)
    ∧ (∀ r, r ∈ Sample.batch
            → VStr (Normalized.sourceId r) ∈ Sample.snapshot_keys ++ keys').
Proof.
  apply (X14_merge_accounts_for_every_key Sample.snapshot _ Sample.batch 1
           Sample.snapshot_keys).
  - reflexivity.
  - reflexivity.
Defined.

(** X15. Of the records of a batch that share an identity key absent from
    the snapshot, the first one is stored and no other: the merged
    collection is the existing one, then records with other keys, then that
    first record, then records with other keys. *)
Theorem X15_first_of_a_key_is_stored (existingData : jsval)
    (items keys : list jsval) (batch1 batch2 : list NormalizedRecord)
    (r : NormalizedRecord) :
  get_prop existingData "advisories" = Ok (VArr items) →
  existing_keys existingData = Ok keys →
  VStr (Normalized.sourceId r) ∉ keys →
  (∀ x, x ∈ batch1 → Normalized.sourceId x ≠ Normalized.sourceId r) →
  ∃ (before after : list NormalizedRecord),
    merge existingData (batch1 ++ r :: batch2)
    = Ok (set_prop existingData "advisories"
            (VArr (items ++ (to_js <$> before ++ r :: after))),
          length (before ++ r :: after))
    ∧ ∀ x, x ∈ before ++ after →
           Normalized.sourceId x ≠ Normalized.sourceId r.
Proof.
  intros Hitems Hkeys Hnew Hfirst.
  destruct (existing_keys_Ok _ _ Hkeys) as (fields & items' & -> & Ha & Hs).
  simpl in Hitems. rewrite Ha in Hitems. injection Hitems as <-.
  set (seen := string_keys keys).
  set (before := first_occurrences seen batch1).
  set (seen' := seen ++ (Normalized.sourceId <$> before)).
  set (after := first_occurrences (seen' ++ [Normalized.sourceId r]) batch2).
  assert (Normalized.sourceId r ∉ seen') as Hr.
  { unfold seen'. intros [Hin|Hin]%elem_of_app.
    - by apply Hnew, elem_of_string_keys.
    - apply list_elem_of_fmap in Hin as (x & Heq & Hx).
      apply (Hfirst x); [| done].
      apply (elem_of_sublist _ _ _ Hx), first_occurrences_sublist. }
  assert (first_occurrences seen (batch1 ++ r :: batch2) = before ++ r :: after)
    as Hadded.
  { rewrite first_occurrences_app. fold before seen'. simpl.
    by rewrite bool_decide_eq_false_2. }
  exists before, after. split.
  - rewrite (merge_VObj _ _ _ _ Ha Hs). fold seen. by rewrite Hadded.
  - intros x [Hx|Hx]%elem_of_app Heq.
    + apply Hr. unfold seen'. apply elem_of_app. right.
      rewrite <- Heq. by apply list_elem_of_fmap_2.
    + apply (first_occurrences_fresh _ _ _ Hx).
      apply elem_of_app. right. rewrite Heq. by apply list_elem_of_singleton.
Qed.

Lemma X15_first_of_a_key_is_stored_witness :
  ∃ (before after : list NormalizedRecord),
    merge (empty_snapshot "2024-11-14T22:13:20.000Z")
      ([transform Sample.at_cutoff]
       ++ transform Sample.newer :: [transform Sample.newer])
    = Ok (set_prop (empty_snapshot "2024-11-14T22:13:20.000Z") "advisories"
            (VArr ([] ++ (to_js <$> before ++ transform Sample.newer :: after))),
          length (before ++ transform Sample.newer :: after))
    ∧ ∀ x, x ∈ before ++ after →
           Normalized.sourceId x ≠ Normalized.sourceId (transform Sample.newer).
Proof.
  apply (X15_first_of_a_key_is_stored
           (empty_snapshot "2024-11-14T22:13:20.000Z") [] []
           [transform Sample.at_cutoff] [transform Sample.newer]
           (transform Sample.newer)).
  - reflexivity.
  - reflexivity.
  - intros H. by apply elem_of_nil in H.
  - intros x Hx. apply list_elem_of_singleton in Hx. subst x. discriminate.
Defined.

(** ** Two runs in a row *)

Lemma replace_field_same (k : string) (v : jsval)
    (fields : list (string * jsval)) :
  assoc k fields = Some v → replace_field k v fields = fields.
Proof.
  induction fields as [|[k0 v0] fields IH]; simpl; [done |].
  case_bool_decide as Hk; [by intros [= ->]; subst k0 |].
  intros Ha. by rewrite IH.
Qed.

(** A batch whose keys are all known changes nothing. *)
Lemma merge_nothing_new (fields : list (string * jsval))
    (items keys : list jsval) (batch : list NormalizedRecord) :
  assoc "advisories" fields = Some (VArr items) →
  source_ids items = Ok keys →
  (∀ r, r ∈ batch → Normalized.sourceId r ∈ string_keys keys) →
  merge (VObj fields) batch = Ok (VObj fields, 0%nat).
Proof.
  intros Ha Hs Hknown. rewrite (merge_VObj _ _ _ _ Ha Hs).
  rewrite (proj2 (first_occurrences_nil _ _) Hknown). simpl.
  by rewrite app_nil_r, replace_field_same.
Qed.

Section TwoRuns.

Variable JSON_parse : string -> option jsval.
Variable JSON_stringify : jsval -> string.

Implicit Types (fs : Files) (clock : Clock) (st : LoopState).

#[local] Abbreviation run2 := (run JSON_parse JSON_stringify).
#[local] Abbreviation persist2 := (persist JSON_parse JSON_stringify).
#[local] Abbreviation load2 := (load JSON_parse).
#[local] Abbreviation commit2 := (commit JSON_stringify).

(** [persist] when the merge returns, with the files in full. *)
Lemma persist_Ok clock fs st before existingData' n :
  merge (load2 (ensure_dir fs).1 (generatedAt_default clock)).1
        (transform <$> allNewAdvisories st) = Ok (existingData', n) →
  exit_code (persist2 clock fs st before) = 0
  ∧ files (persist2 clock fs st before)
    = (commit2 existingData' n (generatedAt_commit clock) (ensure_dir fs).1).1.
Proof.
  intros Hm. unfold persist.
  destruct (ensure_dir fs) as [fs1 made]. cbn [fst snd] in *.
  destruct (load2 fs1 (generatedAt_default clock)) as [existingData noted].
  cbn [fst snd] in *. rewrite Hm.
  by destruct (commit2 existingData' n (generatedAt_commit clock) fs1).
Qed.

(** Apart from the time in the empty snapshot, what is loaded depends on the
    file alone. *)
Lemma load_again fs1 fs2 t1 t2 :
  data_file fs2 = data_file fs1 →
  (load2 fs2 t2).1 = (load2 fs1 t1).1
  ∨ ((load2 fs1 t1).1 = empty_snapshot t1 ∧ (load2 fs2 t2).1 = empty_snapshot t2).
Proof.
  intros Hf. unfold load. rewrite Hf.
  destruct (data_file fs1) as [content|]; [| by right].
  destruct (JSON_parse content) as [parsed|]; [| by right].
  destruct (isArray parsed); [by right | by left].
Qed.

(** X16. Let a run end with exit code 0, and let [JSON.parse] read back what
    that run wrote, if it wrote. Then a second run that fetches no record
    with a key the first did not fetch ends with exit code 0 without writing:
    the files are those the first run left, [generatedAt] included. *)
Theorem X16_second_run_writes_nothing (fuel1 fuel2 : nat)
    (remote1 remote2 : Remote) (clock1 clock2 : Clock) fs st1 st2
    (evs1 evs2 : list Event) (existingData' : jsval) (n : nat) :
  fetch_loop fuel1 remote1 (oneYearAgo clock1) initial_state
    = Some (Fetched st1, evs1) →
  merge (load2 (ensure_dir fs).1 (generatedAt_default clock1)).1
        (transform <$> allNewAdvisories st1) = Ok (existingData', n) →
  JSON_parse
    (JSON_stringify
       (set_prop existingData' "generatedAt" (VStr (generatedAt_commit clock1))))
    = Some (set_prop existingData' "generatedAt"
              (VStr (generatedAt_commit clock1))) →
  fetch_loop fuel2 remote2 (oneYearAgo clock2) initial_state
    = Some (Fetched st2, evs2) →
  (∀ r, r ∈ allNewAdvisories st2 →
        ∃ r1, r1 ∈ allNewAdvisories st1 ∧ ghsa_id r1 = ghsa_id r) →
  ∃ fin1 fin2 : Finished,
    run2 fuel1 remote1 clock1 fs = Some fin1
    ∧ exit_code fin1 = 0
    ∧ run2 fuel2 remote2 clock2 (files fin1) = Some fin2
    ∧ exit_code fin2 = 0
    ∧ writes (events fin2) = []
    ∧ files fin2 = files fin1.
Proof.
  intros Hloop1 Hm Hcodec Hloop2 Hsub.
  set (batch1 := transform <$> allNewAdvisories st1) in *.
  set (batch2 := transform <$> allNewAdvisories st2).
  assert (∀ r, r ∈ batch2 →
               ∃ r1, r1 ∈ batch1 ∧ Normalized.sourceId r1 = Normalized.sourceId r)
    as Hsub'.
  { intros r' (r & -> & Hr)%list_elem_of_fmap.
    destruct (Hsub r Hr) as (r1 & Hr1 & Heq).
    exists (transform r1). split; [by apply list_elem_of_fmap_2 |].
    by rewrite !transform_sourceId. }
  set (fin1 := persist2 clock1 fs st1 (preamble clock1 ++ evs1)).
  destruct (persist_Ok clock1 fs st1 (preamble clock1 ++ evs1) _ _ Hm)
    as [Hexit1 Hfiles1].
  fold fin1 in Hexit1, Hfiles1.
  assert (dir_exists (files fin1) = true) as Hdir.
  { rewrite Hfiles1. unfold commit, ensure_dir.
    destruct (dir_exists fs) eqn:Hd; case_bool_decide; done. }
  assert (ensure_dir (files fin1) = (files fin1, [])) as Hensure.
  { unfold ensure_dir. by rewrite Hdir. }
  (* what the first merge did *)
  destruct (merge_Ok _ _ _ _ Hm) as [keys Hkeys].
  destruct (existing_keys_Ok _ _ Hkeys) as (fields & items & Hd & Ha & Hs).
  rewrite Hd in Hm. rewrite (merge_VObj _ _ _ _ Ha Hs) in Hm.
  injection Hm as <- <-. fold batch1 in Hcodec, Hfiles1.
  set (added := first_occurrences (string_keys keys) batch1) in *.
  (* the second merge adds nothing *)
  assert (∃ loaded,
            (load2 (ensure_dir (files fin1)).1 (generatedAt_default clock2)).1
              = loaded
            ∧ merge loaded batch2 = Ok (loaded, 0%nat)) as (loaded & Hload & Hm2).
  { rewrite Hensure. cbn [fst].
    destruct (decide (0 < length added)%nat) as [Hadded|Hnone].
    - (* the first run wrote: the second reads that back *)
      rewrite Hfiles1. unfold commit. rewrite bool_decide_eq_true_2 by done.
      cbn [fst]. unfold load. cbn [data_file]. rewrite Hcodec. cbn [isArray].
      eexists. split; [reflexivity |]. simpl.
      apply (merge_nothing_new _ (items ++ (to_js <$> added))
               (keys ++ (key_of <$> added))).
      + rewrite assoc_replace_field_ne by done. apply assoc_replace_field.
      + apply source_ids_app; [done | apply source_ids_to_js].
      + intros r Hr. destruct (Hsub' r Hr) as (r1 & Hr1 & <-).
        rewrite string_keys_app, string_keys_key_of.
        by apply first_occurrences_covers.
    - (* the first run did not write: the file is the one it loaded *)
      assert (added = []) as Hnil by (destruct added; simpl in *; [done | lia]).
      assert (∀ r, r ∈ batch2 → Normalized.sourceId r ∈ string_keys keys)
        as Hknown.
      { intros r Hr. destruct (Hsub' r Hr) as (r1 & Hr1 & <-).
        by apply (proj1 (first_occurrences_nil _ _) Hnil). }
      destruct (load_again (ensure_dir fs).1 (files fin1)
                  (generatedAt_default clock1) (generatedAt_default clock2))
        as [Hsame|[Hempty1 Hempty2]].
      + rewrite Hfiles1. unfold commit.
        by rewrite bool_decide_eq_false_2 by done.
      + eexists. split; [exact Hsame |]. rewrite Hd.
        by apply (merge_nothing_new _ items keys).
      + eexists. split; [exact Hempty2 |].
        rewrite Hd in Hempty1. injection Hempty1 as ->.
        simpl in Ha. injection Ha as <-. simpl in Hs. injection Hs as <-.
        by apply (merge_nothing_new _ [] []). }
  exists fin1, (persist2 clock2 (files fin1) st2 (preamble clock2 ++ evs2)).
  split; [by apply run_fetched |]. split; [done |].
  split; [by apply run_fetched |].
  rewrite <- Hload in Hm2.
  destruct (persist_merged JSON_parse JSON_stringify clock2 (files fin1) st2
              (preamble clock2 ++ evs2) _ _ Hm2) as (Hexit2 & Hw2 & _).
  { exact (fetch_loop_writes _ _ _ _ _ _ Hloop2). }
  destruct (persist_Ok clock2 (files fin1) st2 (preamble clock2 ++ evs2) _ _ Hm2)
    as [_ Hfiles2].
  split; [done |]. split; [done |].
  rewrite Hfiles2, Hensure. unfold commit.
  by rewrite bool_decide_eq_false_2 by lia.
Qed.

End TwoRuns.

Lemma X16_second_run_writes_nothing_witness :
  ∃ fin1 fin2 : Finished,
    run Sample.parse_written Sample.stringify 1 Sample.remote Sample.clock
        Sample.no_directory = Some fin1
    ∧ exit_code fin1 = 0
    ∧ run Sample.parse_written Sample.stringify 1 Sample.remote
          Sample.a_second_later (files fin1) = Some fin2
    ∧ exit_code fin2 = 0
    ∧ writes (events fin2) = []
    ∧ files fin2 = files fin1.
Proof.
  refine (X16_second_run_writes_nothing Sample.parse_written Sample.stringify
            1 1 Sample.remote Sample.remote Sample.clock Sample.a_second_later
            Sample.no_directory
            {| page := 1; allNewAdvisories := [Sample.newer; Sample.at_cutoff];
               requests := 1 |}
            {| page := 1; allNewAdvisories := [Sample.newer]; requests := 1 |}
            [ELog (LPage 1); EGet 1;
             ELog (LOlderThanCutoff "2023-11-14T22:13:19Z")]
            [ELog (LPage 1); EGet 1;
             ELog (LOlderThanCutoff "2023-11-14T22:13:20Z")]
            (set_prop (empty_snapshot "2024-11-14T22:13:20.000Z") "advisories"
               (VArr [to_js (transform Sample.newer);
                      to_js (transform Sample.at_cutoff)]))
            2 _ _ _ _ _).
  - reflexivity.
  - reflexivity.
  - reflexivity.
  - reflexivity.
  - intros r Hr. apply list_elem_of_singleton in Hr. subst r.
    exists Sample.newer. split; [left | reflexivity].
Defined.

(** ** The transformer, field by field *)

(** X17. The record the transformer returns is consistent with itself and
    with the first vulnerability entry: its identity key is the advisory's
    [ghsa_id]; its composite [id] is "github:", the identity key, the
    ecosystem and the package name, joined by colons; and when the advisory
    has entries, package name, ecosystem and first patched version are those
    of the first entry, whatever the later entries say. *)
Theorem X17_transform_is_consistent (advisory : RawRecord) :
  Normalized.sourceId (transform advisory) = ghsa_id advisory
  ∧ Normalized.id (transform advisory)
    = "github:" +:+ Normalized.sourceId (transform advisory)
      +:+ ":" +:+ Normalized.ecosystem (transform advisory)
      +:+ ":" +:+ Normalized.packageName (transform advisory)
  ∧ match vulnerabilities advisory with
    | Some (first :: _) =>
        Normalized.packageName (transform advisory) = name (package first)
        ∧ Normalized.ecosystem (transform advisory)
          = pkg_ecosystem (package first)
        ∧ Normalized.firstPatchedVersion (transform advisory)
          = first_patched_version first
    | _ => True
    end.
Proof.
  unfold transform. by destruct (vulnerabilities advisory) as [[|first rest]|].
Qed.

(** ** The earlier revision and the later one *)

Section EarlierLoop.

Variable remote : Remote.
Variable cutoff : Z.

(** A pass of the later loop that does not end on the ceiling is a pass of
    the earlier loop. *)
Lemma earlier_iteration_agrees (st : LoopState) (s : Step) (evs : list Event) :
  iteration remote cutoff st = (s, evs) →
  match s with Leave st' => (page st' <= MAX_PAGE)%nat | _ => True end →
  Earlier.iteration remote cutoff st = (s, evs).
Proof.
  unfold iteration, Earlier.iteration.
  destruct (reply remote (requests st) (page st)) as [data|e]; [| done].
  case_bool_decide; [done |].
  destruct (scan cutoff data (allNewAdvisories st)) as [[acc keep] logged].
  destruct keep; [| done].
  case_bool_decide as Hmax; [| done].
  intros [= <- <-]. simpl. lia.
Qed.

Lemma earlier_fetch_loop_agrees (fuel : nat) (st : LoopState) (e : LoopEnd)
    (evs : list Event) :
  fetch_loop fuel remote cutoff st = Some (e, evs) →
  (page (end_state e) <= MAX_PAGE)%nat →
  Earlier.fetch_loop fuel remote cutoff st = Some (e, evs).
Proof.
  revert st e evs. induction fuel as [|fuel IH]; intros st e evs; [done |].
  simpl.
  destruct (iteration remote cutoff st) as [[st1|st1|x st1] evs1] eqn:Hit.
  - rewrite (earlier_iteration_agrees _ _ _ Hit I).
    destruct (fetch_loop fuel remote cutoff st1) as [[e1 evs2]|] eqn:Hloop;
      [| done].
    intros [= <- <-] Hpage. by rewrite (IH _ _ _ Hloop Hpage).
  - intros [= <- <-] Hpage. by rewrite (earlier_iteration_agrees _ _ _ Hit Hpage).
  - intros [= <- <-] _. by rewrite (earlier_iteration_agrees _ _ _ Hit I).
Qed.

(** The events of the earlier loop hold no write. *)
Lemma earlier_iteration_writes (st : LoopState) (s : Step) (evs : list Event) :
  Earlier.iteration remote cutoff st = (s, evs) → writes evs = [].
Proof.
  unfold Earlier.iteration.
  destruct (reply remote (requests st) (page st)) as [data|e].
  - case_bool_decide; [by intros [= _ <-] |].
    destruct (scan cutoff data (allNewAdvisories st))
      as [[acc keep] logged] eqn:Hs.
    destruct (scan_logged _ _ _ _ _ _ Hs) as (Hw & _ & _).
    unfold writes in *.
    destruct keep; intros [= _ <-]; csimpl; rewrite ?omap_app, ?Hw; done.
  - destruct (response e) as [r|]; [| by intros [= _ <-]].
    destruct (_ || _); by intros [= _ <-].
Qed.

Lemma earlier_fetch_loop_writes (fuel : nat) (st : LoopState) (e : LoopEnd)
    (evs : list Event) :
  Earlier.fetch_loop fuel remote cutoff st = Some (e, evs) → writes evs = [].
Proof.
  revert st e evs. induction fuel as [|fuel IH]; intros st e evs; [done |].
  simpl.
  destruct (Earlier.iteration remote cutoff st) as [[st1|st1|x st1] evs1] eqn:Hit;
    pose proof (earlier_iteration_writes _ _ _ Hit) as Hw.
  - destruct (Earlier.fetch_loop fuel remote cutoff st1) as [[e1 evs2]|] eqn:Hloop;
      [| done].
    intros [= _ <-]. rewrite writes_app, Hw. apply (IH _ _ _ Hloop).
  - by intros [= _ <-].
  - by intros [= _ <-].
Qed.

(** The endpoint always has another page of recent records. *)
Variable pages : nat -> list RawRecord.
Hypothesis always_more :
  ∀ n p, reply remote n p = Resolved (pages p)
         ∧ pages p ≠ []
         ∧ Forall (recent cutoff) (pages p).

Lemma earlier_fetch_loop_runs_away (fuel : nat) (st : LoopState) :
  Earlier.fetch_loop fuel remote cutoff st = None.
Proof.
  revert st. induction fuel as [|fuel IH]; intros st; [done |].
  simpl. unfold Earlier.iteration.
  destruct (always_more (requests st) (page st)) as (-> & Hne & Hall).
  rewrite bool_decide_eq_false_2 by (by destruct (pages (page st))).
  rewrite (scan_all_recent _ _ _ Hall). by rewrite IH.
Qed.

End EarlierLoop.

(** X18. As long as the later loop does not end on the page ceiling, the
    earlier revision of the loop does exactly the same: when the later loop
    ends on a page up to 500, the earlier one ends in the same way, with the
    same records, after the same requests, pauses and log lines. *)
Theorem X18_revisions_agree_below_the_ceiling (fuel : nat) (remote : Remote)
    (cutoff : Z) (e : LoopEnd) (evs : list Event) :
  fetch_loop fuel remote cutoff initial_state = Some (e, evs) →
  (page (end_state e) <= MAX_PAGE)%nat →
  Earlier.fetch_loop fuel remote cutoff initial_state = Some (e, evs).
Proof. apply earlier_fetch_loop_agrees. Qed.

Lemma X18_revisions_agree_below_the_ceiling_witness :
  Earlier.fetch_loop 3 Sample.two_pages Sample.cutoff initial_state
  = Some (Fetched {| page := 3;
                     allNewAdvisories := [Sample.newer; Sample.at_cutoff];
                     requests := 3 |},
          [ELog (LPage 1); EGet 1; ESleep (Num 1000);
           ELog (LPage 2); EGet 2; ESleep (Num 1000);
           ELog (LPage 3); EGet 3; ELog LNoMoreData]).
Proof.
  apply (X18_revisions_agree_below_the_ceiling 3 Sample.two_pages Sample.cutoff).
  - reflexivity.
  - unfold MAX_PAGE. simpl. lia.
Defined.

(** X19. The loop of the earlier revision has no bound of its own: on an
    endpoint that answers every request with a page of recent records, it
    is still running after any number of passes (where the later revision
    stops after 500). *)
Theorem X19_earlier_loop_runs_away (fuel : nat) (remote : Remote) (cutoff : Z)
    (pages : nat -> list RawRecord) :
  (∀ n p, reply remote n p = Resolved (pages p)
          ∧ pages p ≠ []
          ∧ Forall (recent cutoff) (pages p)) →
  Earlier.fetch_loop fuel remote cutoff initial_state = None.
Proof.
  intros Hmore. by apply (earlier_fetch_loop_runs_away remote cutoff pages).
Qed.

Lemma X19_earlier_loop_runs_away_witness :
  Earlier.fetch_loop 1000 Sample.endless Sample.cutoff initial_state = None.
Proof.
  apply (X19_earlier_loop_runs_away 1000 Sample.endless Sample.cutoff
           (fun _ => [Sample.newer])).
  intros n p. split; [reflexivity | split; [discriminate |]].
  constructor; [| constructor]. vm_compute. discriminate.
Defined.

Section EarlierRun.

Variable JSON_parse : string -> option jsval.
Variable JSON_stringify : jsval -> string.

(** X20. In the earlier revision the write does not depend on the merge
    alone. A run whose fetch and merge return writes the file exactly when
    a record was added or the merged collection and the batch differ in
    length; what it writes carries the new [generatedAt] either way. So a
    run that adds nothing still rewrites the file, changing [generatedAt]
    only, unless the snapshot holds exactly as many records as were
    fetched. *)
Theorem X20_earlier_write_rule (fuel : nat) (remote : Remote) (clock : Clock)
    (fs : Files) (st : LoopState) (evs : list Event)
    (existingData' : jsval) (addedCount : nat) :
  Earlier.fetch_loop fuel remote (oneYearAgo clock) initial_state
    = Some (Fetched st, evs) →
  merge (load JSON_parse (ensure_dir fs).1 (generatedAt_default clock)).1
        (transform <$> allNewAdvisories st)
    = Ok (existingData', addedCount) →
  ∃ fin : Finished,
    Earlier.run JSON_parse JSON_stringify fuel remote clock fs = Some fin
    ∧ exit_code fin = 0
    ∧ writes (events fin)
      = (if bool_decide (0 < addedCount)%nat
            || negb (bool_decide
                       (length (Earlier.advisories_of existingData')
                        = length (transform <$> allNewAdvisories st)))
         then [JSON_stringify
                 (set_prop existingData' "generatedAt"
                    (VStr (generatedAt_commit clock)))]
         else [])
    ∧ data_file (files fin)
      = (if bool_decide (0 < addedCount)%nat
            || negb (bool_decide
                       (length (Earlier.advisories_of existingData')
                        = length (transform <$> allNewAdvisories st)))
         then Some (JSON_stringify
                      (set_prop existingData' "generatedAt"
                         (VStr (generatedAt_commit clock))))
         else data_file fs).
Proof.
  intros Hloop Hm. unfold Earlier.run. rewrite Hloop. eexists. split; [done |].
  unfold Earlier.persist.
  pose proof (ensure_dir_data_file fs) as Hdf.
  pose proof (ensure_dir_writes fs) as Hw1.
  destruct (ensure_dir fs) as [fs1 made]. cbn [fst snd] in *.
  pose proof (load_writes JSON_parse fs1 (generatedAt_default clock)) as Hw2.
  destruct (load JSON_parse fs1 (generatedAt_default clock))
    as [existingData noted].
  cbn [fst snd] in *. rewrite Hm. unfold Earlier.commit.
  pose proof (earlier_fetch_loop_writes _ _ _ _ _ _ Hloop) as Hw0.
  destruct (_ || _); cbn [exit_code events files data_file];
    rewrite !writes_app, Hw1, Hw2;
    change (writes (preamble clock ++ evs)) with (writes evs);
    rewrite Hw0; done.
Qed.

End EarlierRun.

Lemma X20_earlier_write_rule_witness :
  ∃ fin : Finished,
    Earlier.run Sample.parse Sample.stringify 2 Sample.known_only Sample.clock
      (Sample.with_file "snapshot") = Some fin
    ∧ exit_code fin = 0
    ∧ writes (events fin)
      = (if bool_decide (0 < 0)%nat
            || negb (bool_decide
                       (length (Earlier.advisories_of Sample.snapshot)
                        = length (transform <$> [Sample.newer])))
         then [Sample.stringify
                 (set_prop Sample.snapshot "generatedAt"
                    (VStr (generatedAt_commit Sample.clock)))]
         else [])
    ∧ data_file (files fin)
      = (if bool_decide (0 < 0)%nat
            || negb (bool_decide
                       (length (Earlier.advisories_of Sample.snapshot)
                        = length (transform <$> [Sample.newer])))
         then Some (Sample.stringify
                      (set_prop Sample.snapshot "generatedAt"
                         (VStr (generatedAt_commit Sample.clock))))
         else data_file (Sample.with_file "snapshot")).
Proof.
  apply (X20_earlier_write_rule Sample.parse Sample.stringify 2
           Sample.known_only Sample.clock (Sample.with_file "snapshot")
           {| page := 2; allNewAdvisories := [Sample.newer]; requests := 2 |}
           [ELog (LPage 1); EGet 1; ESleep (Num 1000);
            ELog (LPage 2); EGet 2; ELog LNoMoreData]
           Sample.snapshot 0).
  - reflexivity.
  - reflexivity.
Defined.

(** ** The first revision *)

Section FirstRevision.

Variable JSON_parse : string -> option jsval.
Variable JSON_stringify : jsval -> string.
Variable received : RawRecord -> jsval.

Lemma first_merge_loop_spec (newAdvisories : list RawRecord)
    (items existingIds : list jsval) (n : nat) :
  First.merge_loop received newAdvisories items existingIds n
  = (items
     ++ (received <$> first_by_ghsa (string_keys existingIds) newAdvisories),
     existingIds
     ++ ((fun r => VStr (ghsa_id r))
           <$> first_by_ghsa (string_keys existingIds) newAdvisories),
     (n + length (first_by_ghsa (string_keys existingIds) newAdvisories))%nat).
Proof.
  revert items existingIds n.
  induction newAdvisories as [|r rest IH]; intros items ids n; simpl.
  - by rewrite !app_nil_r, Nat.add_0_r.
  - rewrite Set_has_spec. case_bool_decide as Hin; [apply IH |].
    rewrite IH, string_keys_app. simpl.
    rewrite <- !app_assoc. simpl. f_equal. lia.
Qed.

(** X21. The first revision reads the snapshot file as a bare list and does
    not check that it is one. When the file parses to any other value, in
    particular to the versioned object the later revisions write, reading
    the identifiers raises a [TypeError]: the run logs it and exits with
    code 1 without writing, whatever was fetched. *)
Theorem X21_first_revision_needs_a_list (newAdvisories : list RawRecord)
    (fs : Files) (content : string) (parsed : jsval) :
  data_file fs = Some content →
  JSON_parse content = Some parsed →
  isArray parsed = false →
  ∃ k : TypeErrorKind,
    First.run JSON_parse JSON_stringify received (Resolved newAdvisories) fs
    = {| exit_code := 1;
         files := (ensure_dir fs).1;
         events :=
           ([ELog LFetching; ELog (LFetched (length newAdvisories))]
            ++ (ensure_dir fs).2 ++ [])
           ++ [EError (LFailure (TypeError k)); EExit 1] |}.
Proof.
  intros Hfile Hparse Harr. unfold First.run.
  pose proof (ensure_dir_data_file fs) as Hdf.
  destruct (ensure_dir fs) as [fs1 made]. cbn [fst snd] in *.
  unfold First.load. rewrite Hdf, Hfile, Hparse.
  unfold First.merge.
  destruct parsed as [| | | | |items|fields]; try done; simpl; eauto.
Qed.

(** X22. When the snapshot file of the first revision holds a list whose
    elements all have properties to read (or is absent, or cannot be
    parsed, and so stands for the empty list), the run exits with code 0.
    It appends to the list, as received and in order, the first advisory of
    each [ghsa_id] that no element of the list carries, and writes the list
    exactly when it appended something. *)
Theorem X22_first_revision_appends_new_ids (newAdvisories : list RawRecord)
    (fs : Files) (items keys : list jsval) (noted : list Event) :
  First.load JSON_parse (ensure_dir fs).1 = (VArr items, noted) →
  array_map (fun a => get_prop a "ghsa_id") items = Ok keys →
  First.run JSON_parse JSON_stringify received (Resolved newAdvisories) fs
  = {| exit_code := 0;
       files :=
         {| dir_exists := true;
            data_file :=
              match first_by_ghsa (string_keys keys) newAdvisories with
              | [] => data_file fs
              | added =>
                  Some (JSON_stringify (VArr (items ++ (received <$> added))))
              end |};
       events :=
         ([ELog LFetching; ELog (LFetched (length newAdvisories))]
          ++ (if dir_exists fs then [] else [EMkdir]) ++ noted)
         ++ [ELog (LAdded (length (first_by_ghsa (string_keys keys)
                                     newAdvisories)))]
         ++ match first_by_ghsa (string_keys keys) newAdvisories with
            | [] => [ELog LNothingNew]
            | added =>
                [EWrite (JSON_stringify (VArr (items ++ (received <$> added))));
                 ELog LSaved]
            end |}.
Proof.
  intros Hload Hkeys. unfold First.run.
  assert (ensure_dir fs
          = ({| dir_exists := true; data_file := data_file fs |},
             if dir_exists fs then [] else [EMkdir])) as Hdir.
  { unfold ensure_dir. destruct fs as [[] file]; done. }
  rewrite Hdir in *. cbn [fst snd] in Hload. rewrite Hload.
  unfold First.merge. simpl. rewrite Hkeys. simpl.
  rewrite first_merge_loop_spec. unfold First.commit.
  destruct (first_by_ghsa (string_keys keys) newAdvisories) as [|r added];
    cbn [length dir_exists data_file Nat.add].
  - rewrite bool_decide_eq_false_2 by lia. done.
  - by rewrite bool_decide_eq_true_2 by lia.
Qed.

End FirstRevision.

Lemma X21_first_revision_needs_a_list_witness :
  ∃ k : TypeErrorKind,
    First.run Sample.parse Sample.stringify Sample.as_received
      (Resolved [Sample.newer]) (Sample.with_file "{}")
    = {| exit_code := 1;
         files := (ensure_dir (Sample.with_file "{}")).1;
         events :=
           ([ELog LFetching; ELog (LFetched (length [Sample.newer]))]
            ++ (ensure_dir (Sample.with_file "{}")).2 ++ [])
           ++ [EError (LFailure (TypeError k)); EExit 1] |}.
Proof.
  apply (X21_first_revision_needs_a_list Sample.parse Sample.stringify
           Sample.as_received [Sample.newer] (Sample.with_file "{}")
           "{}" (VObj [])).
  - reflexivity.
  - reflexivity.
  - reflexivity.
Defined.

Lemma X22_first_revision_appends_new_ids_witness :
  First.run Sample.parse Sample.stringify Sample.as_received
    (Resolved [Sample.newer; Sample.at_cutoff; Sample.newer])
    Sample.no_directory
  = {| exit_code := 0;
       files :=
         {| dir_exists := true;
            data_file :=
              Some (Sample.stringify
                      (VArr [Sample.as_received Sample.newer;
                             Sample.as_received Sample.at_cutoff])) |};
       events :=
         [ELog LFetching; ELog (LFetched 3); EMkdir; ELog (LAdded 2);
          EWrite (Sample.stringify
                    (VArr [Sample.as_received Sample.newer;
                           Sample.as_received Sample.at_cutoff]));
          ELog LSaved] |}.
Proof.
  refine (X22_first_revision_appends_new_ids Sample.parse Sample.stringify
            Sample.as_received
            [Sample.newer; Sample.at_cutoff; Sample.newer]
            Sample.no_directory [] [] [] _ _).
  - reflexivity.
  - reflexivity.
Defined.

(** ** When the merge returns *)

Lemma source_ids_Ok_iff (items : list jsval) :
  (∃ keys, source_ids items = Ok keys)
  ↔ Forall (fun a => a ≠ VNull ∧ a ≠ VUndef) items.
Proof.
  unfold source_ids. induction items as [|a items IH]; simpl.
  - split; [constructor | by exists []].
  - split.
    + intros [keys Hk]. destruct a; simpl in Hk; try done;
        (constructor; [done |]; apply IH;
         destruct (array_map _ items) as [ks|]; [by exists ks | done]).
    + intros [[Hnull Hundef] Hall]%Forall_cons.
      apply IH in Hall as [ks Hks]. rewrite Hks.
      destruct a; simpl; try done; eauto.
Qed.

(** X23. The merge returns exactly when the loaded value is an object whose
    [advisories] is a list without [null] element; it then returns for every
    batch. Elements of other shapes (numbers, strings, objects without
    [sourceId]) do not prevent it. In every other case it raises. *)
Theorem X23_merge_returns_iff (existingData : jsval)
    (batch : list NormalizedRecord) :
  (∃ existingData' n, merge existingData batch = Ok (existingData', n))
  ↔ ∃ fields items,
      existingData = VObj fields
      ∧ assoc "advisories" fields = Some (VArr items)
      ∧ Forall (fun a => a ≠ VNull ∧ a ≠ VUndef) items.
Proof.
  split.
  - intros (d' & n & Hm). destruct (merge_Ok _ _ _ _ Hm) as [keys Hkeys].
    destruct (existing_keys_Ok _ _ Hkeys) as (fields & items & -> & Ha & Hs).
    exists fields, items. split; [done |]. split; [done |].
    apply source_ids_Ok_iff. by exists keys.
  - intros (fields & items & -> & Ha & Hall).
    apply source_ids_Ok_iff in Hall as [keys Hs].
    rewrite (merge_VObj _ _ _ _ Ha Hs). eauto.
Qed.

Lemma X23_merge_returns_iff_witness :
  ∃ existingData' n, merge Sample.snapshot Sample.batch = Ok (existingData', n).
Proof.
  apply (proj2 (X23_merge_returns_iff Sample.snapshot Sample.batch)).
  exists [ ("schemaVersion", VStr "1.0");
           ("generatedAt", VStr "2024-11-13T00:00:00.000Z");
           ("advisories",
             VArr [to_js (transform Sample.older);
                   to_js (transform Sample.newer)]) ],
    [to_js (transform Sample.older); to_js (transform Sample.newer)].
  split; [reflexivity |]. split; [reflexivity |].
  repeat constructor; discriminate.
Defined.

(** ** Moving the cutoff *)

Section TwoCutoffs.

Variable remote : Remote.
Variables cutoff1 cutoff2 : Z.
Hypothesis later : cutoff1 <= cutoff2.

(** The scan with the later cutoff accepts a prefix of what the scan with
    the earlier one accepts; when it accepts the whole page, so does the
    other. *)
Lemma scan_two_cutoffs (data acc acc1 acc2 : list RawRecord)
    (keep1 keep2 : bool) (logged1 logged2 : list Event) :
  scan cutoff1 data acc = (acc1, keep1, logged1) →
  scan cutoff2 data acc = (acc2, keep2, logged2) →
  acc2 `prefix_of` acc1
  ∧ (keep2 = true → acc1 = acc2 ∧ keep1 = true ∧ logged1 = logged2).
Proof.
  revert acc. induction data as [|r data IH]; intros acc; simpl.
  - by intros [= <- <- <-] [= <- <- <-].
  - case_bool_decide as H1; case_bool_decide as H2; try lia.
    + by intros [= <- <- <-] [= <- <- <-].
    + intros Hs1 [= <- <- <-]. split; [| done].
      etrans; [| apply (scan_extends _ _ _ _ _ _ Hs1)]. by apply prefix_app_r.
    + apply IH.
Qed.

Lemma fetch_loop_two_cutoffs (fuel1 fuel2 : nat) (st : LoopState)
    (e1 e2 : LoopEnd) (evs1 evs2 : list Event) :
  fetch_loop fuel1 remote cutoff1 st = Some (e1, evs1) →
  fetch_loop fuel2 remote cutoff2 st = Some (e2, evs2) →
  allNewAdvisories (end_state e2) `prefix_of` allNewAdvisories (end_state e1).
Proof.
  revert fuel1 st e1 e2 evs1 evs2.
  induction fuel2 as [|fuel2 IH]; intros fuel1 st e1 e2 evs1 evs2; [done |].
  destruct fuel1 as [|fuel1]; [done |]. simpl.
  destruct (iteration remote cutoff1 st) as [s1 l1] eqn:Hit1.
  destruct (iteration remote cutoff2 st) as [s2 l2] eqn:Hit2.
  assert (s1 = s2
          ∨ ∃ st1 st2, s2 = Leave st2
              ∧ match s1 with
                | Again st' | Leave st' | Throw _ st' => st' = st1
                end
              ∧ allNewAdvisories st2 `prefix_of` allNewAdvisories st1)
    as [<- | (st1 & st2 & -> & Hs1 & Hpre)].
  { unfold iteration in Hit1, Hit2.
    destruct (reply remote (requests st) (page st)) as [data|x].
    - case_bool_decide; [left; congruence |].
      destruct (scan cutoff1 data (allNewAdvisories st))
        as [[acc1 keep1] logged1] eqn:Hscan1.
      destruct (scan cutoff2 data (allNewAdvisories st))
        as [[acc2 keep2] logged2] eqn:Hscan2.
      destruct (scan_two_cutoffs _ _ _ _ _ _ _ _ Hscan1 Hscan2) as [Hpre Hall].
      destruct keep2.
      + destruct (Hall eq_refl) as (-> & -> & ->). left. congruence.
      + right. injection Hit2 as <- _.
        destruct keep1; [case_bool_decide |]; injection Hit1 as <- _;
          eexists _, _; (split; [reflexivity |]); (split; [reflexivity |]);
          done.
    - left. destruct (response x) as [r|]; [| congruence].
      destruct (_ || _); congruence. }
  - destruct s1 as [st'|st'|x st'].
    + destruct (fetch_loop fuel1 remote cutoff1 st') as [[e1' evs1']|] eqn:H1;
        [| done].
      destruct (fetch_loop fuel2 remote cutoff2 st') as [[e2' evs2']|] eqn:H2;
        [| done].
      intros [= <- _] [= <- _]. apply (IH _ _ _ _ _ _ H1 H2).
    + by intros [= <- _] [= <- _].
    + by intros [= <- _] [= <- _].
  - intros He1 [= <- _]. simpl. etrans; [exact Hpre |].
    destruct s1 as [st'|st'|x st']; subst st'.
    + destruct (fetch_loop fuel1 remote cutoff1 st1) as [[e1' evs1']|] eqn:H1;
        [| done].
      injection He1 as <- _.
      by destruct (fetch_loop_invariants _ _ _ _ _ _ H1) as [? _].
    + by injection He1 as <- _.
    + by injection He1 as <- _.
Qed.

End TwoCutoffs.

(** X24. Moving the cutoff later only cuts the tail of what is fetched:
    against the same endpoint, the records returned with a later cutoff are
    the first records returned with an earlier one, in the same order,
    whether the loops end normally or in an error. *)
Theorem X24_later_cutoff_cuts_the_tail (fuel1 fuel2 : nat) (remote : Remote)
    (cutoff1 cutoff2 : Z) (e1 e2 : LoopEnd) (evs1 evs2 : list Event) :
  cutoff1 <= cutoff2 →
  fetch_loop fuel1 remote cutoff1 initial_state = Some (e1, evs1) →
  fetch_loop fuel2 remote cutoff2 initial_state = Some (e2, evs2) →
  allNewAdvisories (end_state e2) `prefix_of` allNewAdvisories (end_state e1).
Proof. intros Hle. by apply fetch_loop_two_cutoffs. Qed.

Lemma X24_later_cutoff_cuts_the_tail_witness :
  [Sample.newer] `prefix_of` [Sample.newer; Sample.at_cutoff].
Proof.
  apply (X24_later_cutoff_cuts_the_tail 1 1 Sample.remote
           Sample.cutoff (Sample.cutoff + 1000)
           (Fetched {| page := 1;
                       allNewAdvisories := [Sample.newer; Sample.at_cutoff];
                       requests := 1 |})
           (Fetched {| page := 1; allNewAdvisories := [Sample.newer];
                       requests := 1 |})
           [ELog (LPage 1); EGet 1;
            ELog (LOlderThanCutoff "2023-11-14T22:13:19Z")]
           [ELog (LPage 1); EGet 1;
            ELog (LOlderThanCutoff "2023-11-14T22:13:20Z")]).
  - vm_compute. discriminate.
  - reflexivity.
  - reflexivity.
Defined.
